(** * The path-query engine of [BaseExtension] and the batch task

    A shallow embedding of [BaseExtension.z_iter], [BaseExtension.z_sort]
    and [BaseExtension.find] (with its inner functions [is_meta],
    [is_iterable] and [recurse]) from [src/BaseExtension.py], and the
    properties of the query engine proved about it; then of
    [BaseExtension.show], of the decision part of [BaseExtension.effect]
    and of [custom_effect] of [src/BatchTask.py] with its inner functions
    [verify_action], [select_do_individually] and [select_do_on_all].

    Conventions of the embedding.
    - An element of the document is a [Node]: its identifier, the name of
      its Python class ([type(obj).__name__]) and the ordered list of its
      children.  Python compares elements by object identity; here two
      nodes are the same object when they are equal as values, the
      identifier telling apart objects with the same content.  A document
      is well formed ([wf_document]) when no object occurs twice in its
      traversal, which unique identifiers guarantee.
    - An exception is a value of [Exception]; a computation that may raise
      returns a [Result].
    - [self.msg] appends to a list of messages; [recurse], which recurses on
      children and on the rest of the expression, takes a bound on its
      recursion depth and returns [None] when the bound is exceeded.
    - The embedding fixes [tb = None] (the default of [find]), under which
      [debug] prints nothing.
    - Expressions are strings of 8-bit characters: [\w] and [\d] are taken
      on ASCII, and so is the white space of [str.strip]; the embedding
      and Python agree on texts of ASCII characters ([is_ascii]).
    - [int] converts at most [int_max_str_digits] digits, the default of
      the interpreter.
    - What the code gets from outside is a parameter: the text of
      [get_id()], the lines printed by [inkscape --verb-list] and
      [inkscape --action-list], the options of the command line.  A call
      of [sys.exit] ends a run of [custom_effect] with its status. *)

From Stdlib Require Import List String Ascii ZArith Arith Bool Lia Permutation.
From Stdlib Require DecimalString DecimalNat.
Import ListNotations.
Local Open Scope string_scope.
Local Open Scope list_scope.

(** ** Elements *)

#[local] Set Warnings "-register-all".

Inductive Node : Type :=
  mkNode { get_id : nat; type_name : string; children : list Node }.

(** [a == b] on elements. *)
Fixpoint node_eqb (a b : Node) : bool :=
  match a, b with
  | mkNode i k cs, mkNode j k' ds =>
      Nat.eqb i j && String.eqb k k' &&
      (fix all_eqb (xs ys : list Node) : bool :=
         match xs, ys with
         | [], [] => true
         | x :: xs', y :: ys' => node_eqb x y && all_eqb xs' ys'
         | _, _ => false
         end) cs ds
  end.

(** [element.iter()]: the element itself, then its descendants, depth
    first. *)
Fixpoint iter (n : Node) : list Node :=
  match n with
  | mkNode _ _ cs => n :: flat_map iter cs
  end.

(** Number of levels of the tree below and including [n]. *)
Fixpoint height (n : Node) : nat :=
  match n with
  | mkNode _ _ cs => S (list_max (map height cs))
  end.

Definition forest_height (l : list Node) : nat := list_max (map height l).

(** No object occurs twice in the traversal of the document. *)
Definition wf_document (root : Node) : Prop := NoDup (iter root).

(** ** Exceptions and results *)

Inductive Exception : Type :=
| IndexError
| ValueError
| TypeError
| KeyError (key : string)
| AssertionError (msg : string).

Inductive Result (A : Type) : Type :=
| Ok (a : A)
| Raise (e : Exception).
Arguments Ok {A} a.
Arguments Raise {A} e.

Definition rbind {A B} (r : Result A) (k : A -> Result B) : Result B :=
  match r with
  | Ok a => k a
  | Raise e => Raise e
  end.

(** ** Document order: [z_iter] and [z_sort] *)

(** [element in alist] *)
Definition contains (alist : list Node) (element : Node) : bool :=
  existsb (node_eqb element) alist.

(** [id_list.remove(element)]: drops the first equal item; [None] stands
    for the [ValueError] of an absent element. *)
Fixpoint list_remove (element : Node) (id_list : list Node)
  : option (list Node) :=
  match id_list with
  | [] => None
  | x :: rest =>
      if node_eqb x element then Some rest
      else match list_remove element rest with
           | Some rest' => Some (x :: rest')
           | None => None
           end
  end.

(** The loop of [z_iter] over the elements still to visit, with the
    current [id_list] and [count]; the result is the list of the yielded
    elements. *)
Fixpoint z_iter_loop (alist id_list : list Node) (count : Z)
    (elements : list Node) : Result (list Node) :=
  match elements with
  | [] => Ok []
  | element :: rest =>
      if contains alist element then
        match list_remove element id_list with
        | None => Raise ValueError
        | Some id_list' =>
            let count' := (count - 1)%Z in
            if (count' =? 0)%Z then Ok [element]
            else rbind (z_iter_loop alist id_list' count' rest)
                       (fun l => Ok (element :: l))
        end
      else z_iter_loop alist id_list count rest
  end.

Definition z_iter (root : Node) (alist : list Node) : Result (list Node) :=
  let id_list := alist in
  let count := Z.of_nat (List.length id_list) in
  z_iter_loop alist id_list count (iter root).

Definition z_sort (root : Node) (alist : list Node) : Result (list Node) :=
  z_iter root alist.

(** ** Reading one step of the expression

    [recurse] reads the step at the head of [cur_xpath] as the first item
    of [re.findall(pattern, cur_xpath, re.VERBOSE)], where the pattern is
    (written with spaces, which [re.VERBOSE] ignores)
    [[
      ( //? )
      ( \w+ | \* )
      (?: \[ ( -?\d+ (?: :-? (?:\d+)? ){0,2} ) \] )?
      ( .* )
    ]]
    The functions below match the pattern group by group, greedily.  No
    shorter choice of a greedy group can turn a failure into a success:
    the groups after the type are optional or match anything, and inside
    the brackets the character after a shortened run of digits is a digit,
    which neither the colon nor the closing bracket accepts. *)

Local Open Scope char_scope.

(** A digit, among the first 128 characters: the pattern and [int] also
    take the decimal digits of other scripts, which the embedding does
    not read as such. *)
Definition is_digit (c : ascii) : bool :=
  let n := nat_of_ascii c in (48 <=? n)%nat && (n <=? 57)%nat.

(** A word character, among the first 128: the pattern is applied
    without [re.ASCII], so that it also takes letters and digits beyond
    them, which the embedding does not read as such. *)
Definition is_word (c : ascii) : bool :=
  let n := nat_of_ascii c in
  is_digit c || ((65 <=? n)%nat && (n <=? 90)%nat)
  || ((97 <=? n)%nat && (n <=? 122)%nat) || (n =? 95)%nat.

(** The longest prefix whose characters satisfy [p], and the rest. *)
Fixpoint span (p : ascii -> bool) (s : string) : string * string :=
  match s with
  | String c s' =>
      if p c then let (a, b) := span p s' in (String c a, b)
      else (EmptyString, s)
  | EmptyString => (EmptyString, EmptyString)
  end.

(** Group 2: a run of word characters, else a star. *)
Definition match_type (s : string) : option (string * string) :=
  match span is_word s with
  | (EmptyString, _) =>
      match s with
      | String "*" r => Some (String "*" EmptyString, r)
      | _ => None
      end
  | (w, r) => Some (w, r)
  end.

(** An optional minus sign. *)
Definition match_minus (s : string) : string * string :=
  match s with
  | String "-" r => (String "-" EmptyString, r)
  | _ => (EmptyString, s)
  end.

(** One repetition inside the brackets: a colon, an optional minus sign,
    optional digits. *)
Definition match_bound (s : string) : option (string * string) :=
  match s with
  | String ":" r =>
      let (sg, r1) := match_minus r in
      let (ds, r2) := span is_digit r1 in
      Some (String ":" (sg ++ ds)%string, r2)
  | _ => None
  end.

(** The bracketed group: a signed number and at most two repetitions of
    [match_bound]; returns the text between the brackets (group 3) and
    what follows the closing bracket. *)
Definition match_index (s : string) : option (string * string) :=
  match s with
  | String "[" s1 =>
      let (sg, s2) := match_minus s1 in
      match span is_digit s2 with
      | (EmptyString, _) => None
      | (ds, s3) =>
          let (b1, s4) :=
            match match_bound s3 with
            | Some p => p
            | None => (EmptyString, s3)
            end in
          let (b2, s5) :=
            match b1 with
            | EmptyString => (EmptyString, s4)
            | _ => match match_bound s4 with
                   | Some p => p
                   | None => (EmptyString, s4)
                   end
            end in
          match s5 with
          | String "]" r => Some ((sg ++ ds ++ b1 ++ b2)%string, r)
          | _ => None
          end
      end
  | _ => None
  end.

(** The four groups of a match. *)
Record StepMatch : Type := mkStepMatch {
  axis : string;
  this_type : string;
  this_n : string;
  next_xpath : string
}.

(** Type, optional brackets and the rest of the line after an axis [ax]
    (the dot of the last group stops at a newline); and a group that takes no part in the match is reported as
    the empty string. *)
Definition match_after_axis (ax : string) (s : string) : option StepMatch :=
  match match_type s with
  | Some (ty, r2) =>
      let (n, r3) :=
        match match_index r2 with
        | Some p => p
        | None => (EmptyString, r2)
        end in
      let (nx, _) := span (fun c => negb (Ascii.eqb c "010")) r3 in
      Some (mkStepMatch ax ty n nx)
  | None => None
  end.

(** A match of the pattern that starts at the first character of [s]. *)
Definition match_step (s : string) : option StepMatch :=
  match s with
  | String "/" r =>
      match r with
      | String "/" r' =>
          match match_after_axis "//"%string r' with
          | Some m => Some m
          | None => match_after_axis "/"%string r
          end
      | _ => match_after_axis "/"%string r
      end
  | _ => None
  end.

(** [re.findall(...)[0]]: the leftmost match; [None] stands for the
    [IndexError] of an empty list of matches. *)
Fixpoint findall_first (s : string) : option StepMatch :=
  match match_step s with
  | Some m => Some m
  | None =>
      match s with
      | String _ r => findall_first r
      | EmptyString => None
      end
  end.

(** ** The index selector *)

Fixpoint digits_value (acc : Z) (s : string) : option Z :=
  match s with
  | EmptyString => Some acc
  | String c r =>
      if is_digit c
      then digits_value (10 * acc + Z.of_nat (nat_of_ascii c - 48)) r
      else None
  end.

(** The most digits that [int] converts: the default of
    [sys.int_max_str_digits] (CPython 3.11, and the security releases of
    3.7 to 3.10); the sign is not counted, leading zeros are. *)
Definition int_max_str_digits : nat := 4300.

(** [int] on a text without sign; [None] stands for [ValueError]. *)
Definition digits_int (s : string) : option Z :=
  if (int_max_str_digits <? String.length s)%nat then None
  else digits_value 0 s.

(** [int(n)] on the texts the pattern can capture: an optional minus sign
    followed by digits; [None] stands for [ValueError] (as for a lone
    minus sign, or for more digits than [int_max_str_digits]). *)
Definition py_int (s : string) : option Z :=
  match s with
  | EmptyString => None
  | String "-" EmptyString => None
  | String "-" r => option_map Z.opp (digits_int r)
  | _ => digits_int s
  end.

(** Whether [this_n] contains a colon. *)
Fixpoint has_colon (s : string) : bool :=
  match s with
  | EmptyString => false
  | String c r => Ascii.eqb c ":" || has_colon r
  end.

(** [this_n.split] on the colon. *)
Fixpoint split_colon (s : string) : list string :=
  match s with
  | EmptyString => [EmptyString]
  | String c r =>
      if Ascii.eqb c ":" then EmptyString :: split_colon r
      else match split_colon r with
           | h :: t => String c h :: t
           | [] => [String c EmptyString]
           end
  end.

Local Close Scope char_scope.
Local Open Scope list_scope.

(** The value of [this_n] after conversion: [None], an [int], or the list
    built from the parts of a slice. *)
Inductive Selector : Type :=
| NoSelector
| IndexSelector (i : Z)
| SliceSelector (parts : list (option Z)).

Fixpoint convert_parts (parts : list string) : Result (list (option Z)) :=
  match parts with
  | [] => Ok []
  | n :: rest =>
      rbind (if String.eqb n "" then Ok None
             else match py_int n with
                  | Some z => Ok (Some z)
                  | None => Raise ValueError
                  end)
            (fun v => rbind (convert_parts rest) (fun vs => Ok (v :: vs)))
  end.

Definition convert_this_n (this_n : string) : Result Selector :=
  if String.eqb this_n "" then Ok NoSelector
  else if has_colon this_n then
    rbind (convert_parts (split_colon this_n)) (fun l => Ok (SliceSelector l))
  else match py_int this_n with
       | Some z => Ok (IndexSelector z)
       | None => Raise ValueError
       end.

(** [l[i]] for an [int] [i]; [None] stands for [IndexError]. *)
Definition py_index {A} (l : list A) (i : Z) : option A :=
  let len := Z.of_nat (List.length l) in
  let j := if (i <? 0)%Z then (i + len)%Z else i in
  if (j <? 0)%Z || (len <=? j)%Z then None
  else nth_error l (Z.to_nat j).

(** A bound of a slice brought into range, for a sequence of length
    [len]. *)
Definition adjust_bound (len step i : Z) : Z :=
  if (i <? 0)%Z then
    let i' := (i + len)%Z in
    if (i' <? 0)%Z then (if (step <? 0)%Z then -1 else 0)%Z else i'
  else if (len <=? i)%Z then (if (step <? 0)%Z then len - 1 else len)%Z
  else i.

(** [l[slice(start, stop, step)]]; a zero step raises [ValueError]. *)
Definition py_slice {A} (l : list A) (start stop step : option Z)
  : Result (list A) :=
  let len := Z.of_nat (List.length l) in
  let step := match step with Some s => s | None => 1%Z end in
  if (step =? 0)%Z then Raise ValueError
  else
    let lo :=
      match start with
      | Some i => adjust_bound len step i
      | None => if (step <? 0)%Z then (len - 1)%Z else 0%Z
      end in
    let hi :=
      match stop with
      | Some i => adjust_bound len step i
      | None => if (step <? 0)%Z then (-1)%Z else len
      end in
    let slicelen :=
      if (step <? 0)%Z
      then (if (hi <? lo)%Z then (lo - hi - 1) / (- step) + 1 else 0)%Z
      else (if (lo <? hi)%Z then (hi - lo - 1) / step + 1 else 0)%Z in
    Ok (flat_map
          (fun k => match nth_error l (Z.to_nat (lo + Z.of_nat k * step)) with
                    | Some x => [x]
                    | None => []
                    end)
          (seq 0 (Z.to_nat slicelen))).

(** ** The query: [find] and its inner functions *)

Definition tag_dict (code : string) : option string :=
  if String.eqb code "l" then Some "Layer"
  else if String.eqb code "g" then Some "Group"
  else if String.eqb code "p" then Some "PathElement"
  else if String.eqb code "img" then Some "Image"
  else None.

Definition is_meta (obj : Node) : bool :=
  existsb (String.eqb (type_name obj))
          ["Defs"; "NamedView"; "Metadata"; "StyleElement"].

Definition is_iterable (obj : Node) : bool :=
  existsb (String.eqb (type_name obj)) ["Group"; "Layer"].

(** A run of [recurse]: the messages passed to [self.msg], in order, and
    the value returned or the exception raised; [None] when the bound on
    the recursion depth is exceeded. *)
Definition Run (A : Type) : Type := option (list string * Result A).

Definition ret {A} (a : A) : Run A := Some ([], Ok a).

Definition lift {A} (r : Result A) : Run A := Some ([], r).

Definition msg (text : string) : Run unit := Some ([text], Ok tt).

Definition bind {A B} (m : Run A) (k : A -> Run B) : Run B :=
  match m with
  | None => None
  | Some (w, Raise e) => Some (w, Raise e)
  | Some (w, Ok a) =>
      match k a with
      | None => None
      | Some (w', r) => Some (w ++ w', r)
      end
  end.

Notation "x <- m ;; k" := (bind m (fun x => k))
  (at level 61, m at next level, right associativity).
Notation "' pat <- m ;; k" := (bind m (fun x => let 'pat := x in k))
  (at level 61, pat pattern, m at next level, right associativity).

(** [this_type == '*' or type(obj).__name__ == tag_dict[this_type]] *)
Definition match_type_of (this_type : string) (obj : Node) : Result bool :=
  if String.eqb this_type "*" then Ok true
  else match tag_dict this_type with
       | Some name => Ok (String.eqb (type_name obj) name)
       | None => Raise (KeyError this_type)
       end.

(** The first loop of [recurse]: [matching_types] and the part of
    [to_recurse] it fills. *)
Fixpoint classify (this_type : string) (only_immediate : bool)
    (objects : list Node) : Result (list Node * list Node) :=
  match objects with
  | [] => Ok ([], [])
  | obj :: rest =>
      rbind (match_type_of this_type obj) (fun match_type =>
      rbind (classify this_type only_immediate rest) (fun '(m, r) =>
      Ok (if match_type then obj :: m else m,
          if only_immediate then r else obj :: r)))
  end.

(** The [try] block of [recurse]: an [IndexError] is caught and reported,
    any other exception passes. *)
Definition select_matches (this_n : Selector) (matching_types : list Node)
  : Run (list Node) :=
  match this_n with
  | NoSelector => ret matching_types
  | IndexSelector i =>
      match py_index matching_types i with
      | Some x => ret [x]
      | None => _ <- msg "WARN: list index out of range" ;; ret []
      end
  | SliceSelector parts =>
      match nth_error parts 1 with
      | None => _ <- msg "WARN: list index out of range" ;; ret []
      | Some None => lift (Raise (AssertionError
                                    "end must be specified (for now...)"))
      | Some (Some _) =>
          match parts with
          | [a; b] => lift (py_slice matching_types a b None)
          | [a; b; c] => lift (py_slice matching_types a b c)
          | _ => lift (Raise TypeError)
          end
      end
  end.

(** The last loop of [recurse], [call] being the recursive call on the
    children of a container. *)
Fixpoint recurse_into (call : list Node -> Run (list Node))
    (to_recurse : list Node) : Run (list Node) :=
  match to_recurse with
  | [] => ret []
  | obj :: rest =>
      if is_iterable obj then
        out <- call (children obj) ;;
        outs <- recurse_into call rest ;;
        ret (out ++ outs)
      else recurse_into call rest
  end.

Fixpoint recurse (depth : nat) (root : Node) (objects : list Node)
    (cur_xpath : string) : Run (list Node) :=
  match depth with
  | O => None
  | S depth' =>
      objects <- lift (z_sort root objects) ;;
      m <- lift (match findall_first cur_xpath with
                 | Some m => Ok m
                 | None => Raise IndexError
                 end) ;;
      let only_immediate := negb (String.eqb (axis m) "//") in
      this_n <- lift (convert_this_n (this_n m)) ;;
      '(matching_types, to_recurse) <-
         lift (classify (this_type m) only_immediate objects) ;;
      matches <- select_matches this_n matching_types ;;
      let '(output, to_recurse) :=
        if only_immediate then
          if String.eqb (next_xpath m) "" then (matches, to_recurse)
          else ([], to_recurse ++ matches)
        else (matches, to_recurse) in
      outs <- recurse_into
                (fun kids =>
                   recurse depth' root kids
                     (if only_immediate then next_xpath m else cur_xpath))
                to_recurse ;;
      ret (output ++ outs)
  end.

(** The object a query is run on: an [ElementList] (a selection) with its
    values, an element (the root of the document, a group, ...), or a plain
    list of elements. *)
Inductive QueryObject : Type :=
| ElementList (values : list Node)
| Element (obj : Node)
| PlainList (items : list Node).

(** [find(obj, xpath)] on the document of root [root]; iterating an
    element gives its children, and so does membership in it. *)
Definition find (depth : nat) (root : Node) (obj : QueryObject)
    (xpath : string) : Run (list Node) :=
  match obj with
  | ElementList values =>
      recurse depth root (filter (fun child => negb (is_meta child)) values)
              xpath
  | Element e =>
      if String.eqb (type_name e) "SvgDocumentElement"
      then recurse depth root
                   (filter (fun child => negb (is_meta child)) (children e))
                   xpath
      else recurse depth root (children e) xpath
  | PlainList items => recurse depth root items xpath
  end.

(** ** A sample document *)

Module Sample.
Definition path (i : nat) : Node := mkNode i "PathElement" [].
Definition defs (i : nat) : Node := mkNode i "Defs" [].
Definition group (i : nat) (cs : list Node) : Node := mkNode i "Group" cs.

Definition g1 : Node := group 2 [path 3; defs 4; group 5 [path 6]].
Definition c7 : Node := path 7.
Definition g8 : Node := group 8 [].
Definition g9 : Node := group 9 [path 10].
Definition doc : Node :=
  mkNode 0 "SvgDocumentElement" [defs 1; g1; c7; g8; g9].
End Sample.

(** ** Notions used to state the properties *)

(** [l] is a subsequence of [t]: the items of [l] occur in [t], in the
    same order. *)
Inductive Sublist : list Node -> list Node -> Prop :=
| Sublist_nil : forall t, Sublist [] t
| Sublist_skip : forall l y t, Sublist l t -> Sublist l (y :: t)
| Sublist_take : forall x l t, Sublist l t -> Sublist (x :: l) (x :: t).


(** What a descendant step on the wildcard collects below a node: for a
    container, its children followed by what is collected below each of
    them; nothing for any other node. *)
Fixpoint below (o : Node) : list Node :=
  match o with
  | mkNode _ _ cs =>
      if is_iterable o then cs ++ flat_map below cs else []
  end.

(** The nodes of a list and what is collected below them, level first. *)
Definition level_first (l : list Node) : list Node := l ++ flat_map below l.


(** Whether a node satisfies the type of a step whose code resolves. *)
Definition satisfies (ty : string) (obj : Node) : bool :=
  String.eqb ty "*"
  || match tag_dict ty with
     | Some name => String.eqb (type_name obj) name
     | None => false
     end.

(** The type of a step resolves: it is the wildcard or a code of
    [tag_dict]. *)
Definition resolves (ty : string) : bool :=
  String.eqb ty "*"
  || match tag_dict ty with Some _ => true | None => false end.

(** The candidates that [find] passes to [recurse]. *)
Definition candidates (obj : QueryObject) : list Node :=
  match obj with
  | ElementList values => filter (fun child => negb (is_meta child)) values
  | Element e =>
      if String.eqb (type_name e) "SvgDocumentElement"
      then filter (fun child => negb (is_meta child)) (children e)
      else children e
  | PlainList items => items
  end.

(** The steps of an expression as [recurse] reads them, each from the
    [next_xpath] of the one before; [None] when some step cannot be read.
    [n] bounds the number of steps. *)
Fixpoint steps_of (n : nat) (xpath : string) : option (list StepMatch) :=
  match n with
  | O => None
  | S n' =>
      match findall_first xpath with
      | None => None
      | Some m =>
          if String.eqb (next_xpath m) "" then Some [m]
          else option_map (cons m) (steps_of n' (next_xpath m))
      end
  end.

(** Every step takes at least two characters of the expression. *)
Definition step_list (xpath : string) : option (list StepMatch) :=
  steps_of (String.length xpath) xpath.

Definition immediate (m : StepMatch) : bool :=
  negb (String.eqb (axis m) "//").

(** ** Printing: [BaseExtension.show] and the improved [msg]

    [obj.get_id()] returns the text of the identifier of an element; the
    function [id_text] stands for it. *)

(** What [show] is applied to: a list of elements, an element, or an
    object of another class, which has no [get_id] (such as the
    [ElementList] of the selection). *)
Inductive Shown : Type :=
| ShownList (items : list Node)
| ShownElement (obj : Node)
| ShownOther (class_name : string).

Section Show.
Variable id_text : Node -> string.

(** [rep] on an element. *)
Definition rep (obj : Node) : string :=
  (type_name obj ++ "(" ++ id_text obj ++ ")")%string.

Definition show (obj : Shown) : string :=
  match obj with
  | ShownList items =>
      ("[" ++ String.concat ", " (map rep items) ++ "]")%string
  | ShownElement e => rep e
  | ShownOther class_name => class_name
  end.
End Show.

(** The improved [msg], called with several texts and the default
    separator. *)
Definition msg_args (args : list string) : Run unit :=
  msg (String.concat " " args).

(** ** [BaseExtension.effect]

    The part of [effect] that decides what is run: the messages, and the
    temporary file and the [actions] argument passed to [inkscape], if it
    is called.  [None] stands for an [actions_list] that is [None]. *)
Definition effect (input_file : string) (actions_list : option (list string))
  : list string * option (string * string) :=
  match actions_list with
  | None | Some [] =>
      (["No actions received. Perhaps you are calling inkex object methods?"],
       None)
  | Some l =>
      ([], Some ((input_file ++ "-BaseExtension.svg")%string,
                 String.concat ";" (l ++ ["FileSave"; "FileQuit"])))
  end.

(** ** [BatchTask.custom_effect] *)

Module BatchTask.

(** [s.split(c)] for a separator of one character. *)
Fixpoint split_char (c : ascii) (s : string) : list string :=
  match s with
  | EmptyString => [EmptyString]
  | String d r =>
      if Ascii.eqb d c then EmptyString :: split_char c r
      else match split_char c r with
           | h :: t => String d h :: t
           | [] => [String d EmptyString]
           end
  end.

(** [s.split(sep)] for a separator of the two characters [a], [b]. *)
Fixpoint split_pair (a b : ascii) (s : string) : list string :=
  match s with
  | EmptyString => [EmptyString]
  | String c r =>
      let keep :=
        match split_pair a b r with
        | h :: t => String c h :: t
        | [] => [String c EmptyString]
        end in
      match r with
      | String d r' =>
          if Ascii.eqb c a && Ascii.eqb d b
          then EmptyString :: split_pair a b r'
          else keep
      | EmptyString => keep
      end
  end.

(** The characters that [str.strip] removes, among the first 128;
    [str.strip] also removes the white space beyond them (such as the
    no-break space), which the embedding keeps. *)
Definition is_space (c : ascii) : bool :=
  let n := nat_of_ascii c in
  ((9 <=? n)%nat && (n <=? 13)%nat) || ((28 <=? n)%nat && (n <=? 32)%nat).

Fixpoint lstrip (s : string) : string :=
  match s with
  | String c r => if is_space c then lstrip r else s
  | EmptyString => EmptyString
  end.

Fixpoint rstrip (s : string) : string :=
  match s with
  | String c r =>
      match rstrip r with
      | EmptyString => if is_space c then EmptyString else String c EmptyString
      | r' => String c r'
      end
  | EmptyString => EmptyString
  end.

(** [s.strip()] *)
Definition strip (s : string) : string := rstrip (lstrip s).

(** The options that [custom_effect] reads. *)
Record Options : Type := mkOptions {
  target : string;
  xpath : string;
  mode : string;
  tab_effect : option string;
  effect1 : option string;
  effect2 : option string;
  effect3 : option string;
  effects : option string;
  dry_run : string
}.

(** The loop of the [Simple] tab over [effect1], [effect2], [effect3];
    [None] stands for the [ValueError] raised when the list is still
    empty after an option. *)
Fixpoint simple_effects (acc : list string) (values : list (option string))
  : option (list string) :=
  match values with
  | [] => Some acc
  | e :: rest =>
      let acc := match e with
                 | Some text => acc ++ [strip text]
                 | None => acc
                 end in
      match acc with
      | [] => None
      | _ => simple_effects acc rest
      end
  end.

(** The lines of the [Multi] tab, separated by a backslash followed by
    [n]; in a line the effects are separated by semicolons. *)
Definition multi_effects (text : string) : list string :=
  flat_map
    (fun line =>
       map strip
           (filter (fun e => negb (String.eqb e ""))
                   (split_char ";"%char line)))
    (split_pair "\"%char "n"%char text).

(** The [try] block that fills [effects]; [None] stands for
    [ValueError]. *)
Definition read_effects (options : Options) : option (list string) :=
  let tab :=
    match tab_effect options with
    | None =>
        match effects options, effect1 options with
        | Some _, _ => Some "Multi"
        | None, Some _ => Some "Simple"
        | None, None => None
        end
    | Some t => Some t
    end in
  match tab with
  | None => Some []
  | Some t =>
      if String.eqb t "Simple" then
        simple_effects [] [effect1 options; effect2 options; effect3 options]
      else if String.eqb t "Multi" then
        match effects options with
        | None => None
        | Some text => Some (multi_effects text)
        end
      else Some []
  end.

(** How a run of [custom_effect] ends when it does not return. *)
Inductive Ended : Type :=
| SystemExit (code : Z)
| Uncaught (e : Exception)
| UnboundLocalError (name : string).

Section Actions.
Variable id_text : Node -> string.
(** The lines printed by [inkscape --verb-list] and by
    [inkscape --action-list], cut before the colon. *)
Variables verb_list action_list : list string.

(** [verify_action]: [Some action] stands for [ValueError(action)]. *)
Definition verify_action (action : string) : option string :=
  let action :=
    if has_colon action then hd EmptyString (split_char ":"%char action)
    else action in
  if existsb (String.eqb action) (verb_list ++ action_list) then None
  else Some action.

(** The loop [for action in actions] of both selection functions, on the
    current [actions_list]; [inl] carries the argument of the
    [ValueError]. *)
Fixpoint do_actions (actions_list : list string) (actions : list string)
  : string + list string :=
  match actions with
  | [] => inr actions_list
  | action :: rest =>
      match verify_action action with
      | Some bad => inl bad
      | None => do_actions (actions_list ++ [action]) rest
      end
  end.

Fixpoint select_do_individually (actions_list : list string)
    (objs : list Node) (actions : list string) : string + list string :=
  match objs with
  | [] => inr actions_list
  | obj :: rest =>
      match do_actions
              (actions_list
               ++ ["EditDeselect"; ("select-by-id:" ++ id_text obj)%string])
              actions with
      | inl bad => inl bad
      | inr actions_list' => select_do_individually actions_list' rest actions
      end
  end.

Definition select_do_on_all (actions_list : list string)
    (objs : list Node) (actions : list string) : string + list string :=
  do_actions
    (actions_list
     ++ map (fun obj => ("select-by-id:" ++ id_text obj)%string) objs)
    actions.

(** A run of [custom_effect]: the messages, and the list returned or the
    way the run ended; [None] when the bound on the depth of [find] is
    exceeded. *)
Definition Effect (A : Type) : Type := option (list string * (Ended + A)).

Definition done {A} (a : A) : Effect A := Some ([], inr a).

Definition stop {A} (e : Ended) : Effect A := Some ([], inl e).

Definition say (args : list string) : Effect unit :=
  Some ([String.concat " " args], inr tt).

Definition of_run {A} (r : Run A) : Effect A :=
  match r with
  | None => None
  | Some (w, Ok a) => Some (w, inr a)
  | Some (w, Raise e) => Some (w, inl (Uncaught e))
  end.

Definition ebind {A B} (m : Effect A) (k : A -> Effect B) : Effect B :=
  match m with
  | None => None
  | Some (w, inl e) => Some (w, inl e)
  | Some (w, inr a) =>
      match k a with
      | None => None
      | Some (w', r) => Some (w ++ w', r)
      end
  end.

(** [custom_effect] on the document of root [root] with the selection
    [selected]; [actions_list] starts empty, and the effects are always
    passed to the selection functions as a list. *)
Definition custom_effect (depth : nat) (root : Node) (selected : list Node)
    (options : Options) : Effect (list string) :=
  ebind
    (if String.eqb (dry_run options) "true" then
       ebind (of_run (find depth root (Element root) "/*")) (fun found =>
       ebind (say ["Root:"; show id_text (ShownList found)]) (fun _ =>
       ebind (of_run (find depth root (ElementList selected) "/*"))
             (fun found' =>
       ebind (say ["Selected:"; show id_text (ShownList found')]) (fun _ =>
       say []))))
     else done tt)
    (fun _ =>
  match read_effects options with
  | None =>
      ebind (say ["No effects inputted! Quitting..."]) (fun _ =>
      stop (SystemExit 0))
  | Some effs =>
      ebind
        (if String.eqb (target options) "root" then
           of_run (find depth root (Element root) (xpath options))
         else if String.eqb (target options) "selected" then
           of_run (find depth root (ElementList selected) (xpath options))
         else stop (UnboundLocalError "objects"))
        (fun objects =>
      match objects with
      | [] =>
          ebind (say ["No objects to apply on."]) (fun _ =>
          ebind (say ["Root:"; show id_text (ShownElement root)]) (fun _ =>
          ebind (say ["Selected:"; show id_text (ShownOther "ElementList")])
                (fun _ =>
          stop (SystemExit 0))))
      | _ :: _ =>
          match
            (if String.eqb (mode options) "all" then
               select_do_on_all [] objects effs
             else if String.eqb (mode options) "indiv" then
               select_do_individually [] objects effs
             else inr [])
          with
          | inl bad =>
              ebind (say [("'" ++ bad
                           ++ "' is not a valid action or verb in inkscape.")
                          %string])
                    (fun _ => stop (SystemExit 1))
          | inr actions_list => done actions_list
          end
      end)
  end).
End Actions.

End BatchTask.

(** ** Notions used to state further properties *)

(** Every character of [s] satisfies [p]. *)
Fixpoint string_all (p : ascii -> bool) (s : string) : bool :=
  match s with
  | EmptyString => true
  | String c r => p c && string_all p r
  end.

Definition is_slash (c : ascii) : bool := Ascii.eqb c "/"%char.

Definition is_semicolon (c : ascii) : bool := Ascii.eqb c ";"%char.

Definition is_backslash (c : ascii) : bool := Ascii.eqb c "\"%char.

(** [s] begins with a word character or a star. *)
Definition starts_type (s : string) : bool :=
  match s with
  | String c _ => is_word c || Ascii.eqb c "*"%char
  | EmptyString => false
  end.

(** Some slash of [s] is directly followed by a word character or a
    star. *)
Fixpoint has_step (s : string) : bool :=
  match s with
  | EmptyString => false
  | String c r => (is_slash c && starts_type r) || has_step r
  end.

Fixpoint count_colons (s : string) : nat :=
  match s with
  | EmptyString => 0
  | String c r => (if Ascii.eqb c ":"%char then 1 else 0) + count_colons r
  end.

(** The exceptions that a query raises. *)
Definition raisable (e : Exception) : Prop :=
  match e with
  | TypeError => False
  | AssertionError text => text = "end must be specified (for now...)"
  | _ => True
  end.

(** A run records nothing but the warning of the index out of range and
    raises nothing but the exceptions of [raisable]. *)
Definition clean {A} (r : Run A) : Prop :=
  match r with
  | None => True
  | Some (w, res) =>
      Forall (fun text => text = "WARN: list index out of range") w
      /\ match res with
         | Raise e => raisable e
         | Ok _ => True
         end
  end.

(** The options with another value of [dry_run]. *)
Definition with_dry_run (options : BatchTask.Options) (value : string)
  : BatchTask.Options :=
  BatchTask.mkOptions
    (BatchTask.target options) (BatchTask.xpath options)
    (BatchTask.mode options) (BatchTask.tab_effect options)
    (BatchTask.effect1 options) (BatchTask.effect2 options)
    (BatchTask.effect3 options) (BatchTask.effects options) value.

(** A character among the first 128, on which the embedding and Python
    agree about word characters, digits and white space. *)
Definition is_ascii (c : ascii) : bool := (nat_of_ascii c <? 128)%nat.

(** The decimal writing of a natural number. *)
Definition decimal (n : nat) : string :=
  DecimalString.NilEmpty.string_of_uint (Nat.to_uint n).







(** What an expression of steps with the immediate axis and without
    selectors, of types [tys], returns on the candidates [objs]: the
    candidates of the first type when it is the last, else what the rest
    of the steps returns on the children of each of them that is a
    container. *)
Fixpoint path_nodes (tys : list string) (objs : list Node) : list Node :=
  match tys with
  | [] => []
  | ty :: rest =>
      match rest with
      | [] => filter (satisfies ty) objs
      | _ :: _ =>
          flat_map (fun o => if is_iterable o
                             then path_nodes rest (children o) else [])
                   (filter (satisfies ty) objs)
      end
  end.

(** ** Elements: induction and equality *)

Section NodeInduction.
Variable P : Node -> Prop.
Hypothesis step : forall i k cs, Forall P cs -> P (mkNode i k cs).

Fixpoint Node_ind' (n : Node) : P n :=
  match n with
  | mkNode i k cs =>
      step i k cs
        ((fix all (l : list Node) : Forall P l :=
            match l with
            | [] => Forall_nil P
            | x :: l' => Forall_cons x (Node_ind' x) (all l')
            end) cs)
  end.
End NodeInduction.

Lemma node_eqb_eq (a b : Node) : node_eqb a b = true <-> a = b.
Proof.
  revert b. induction a as [i k cs IH] using Node_ind'.
  intros [j k' ds]. simpl.
  rewrite !andb_true_iff, Nat.eqb_eq, String.eqb_eq.
  assert (L : (fix all_eqb (xs ys : list Node) : bool :=
                 match xs, ys with
                 | [], [] => true
                 | x :: xs', y :: ys' => node_eqb x y && all_eqb xs' ys'
                 | _, _ => false
                 end) cs ds = true <-> cs = ds).
  { revert ds. induction IH as [|x xs Hx _ IHxs]; intros [|y ys];
      try (split; [discriminate | congruence]); [tauto|].
    rewrite andb_true_iff, Hx, IHxs. split.
    - intros [-> ->]. reflexivity.
    - intros E. injection E. auto. }
  rewrite L. split.
  - intros [[-> ->] ->]. reflexivity.
  - intros E. injection E. auto.
Qed.

Lemma node_eqb_refl (a : Node) : node_eqb a a = true.
Proof. apply node_eqb_eq. reflexivity. Qed.

Lemma node_eqb_neq (a b : Node) : node_eqb a b = false <-> a <> b.
Proof.
  rewrite <- node_eqb_eq. destruct (node_eqb a b); split; congruence.
Qed.

Lemma contains_In (alist : list Node) (x : Node) :
  contains alist x = true <-> In x alist.
Proof.
  unfold contains. rewrite existsb_exists. split.
  - intros [y [Hy E]]. apply node_eqb_eq in E. subst. assumption.
  - intros H. exists x. split; [assumption | apply node_eqb_refl].
Qed.

Lemma contains_not_In (alist : list Node) (x : Node) :
  contains alist x = false <-> ~ In x alist.
Proof.
  rewrite <- contains_In. destruct (contains alist x); split; congruence.
Qed.

(** Unique identifiers make a document well formed. *)
Lemma unique_ids_wf (root : Node) :
  NoDup (map get_id (iter root)) -> wf_document root.
Proof. apply NoDup_map_inv. Qed.

Lemma iter_head (n : Node) : iter n = n :: flat_map iter (children n).
Proof. destruct n; reflexivity. Qed.

Lemma height_children (n : Node) :
  height n = S (forest_height (children n)).
Proof. destruct n; reflexivity. Qed.

Lemma forest_height_In (l : list Node) (x : Node) :
  In x l -> height x <= forest_height l.
Proof.
  unfold forest_height. induction l as [|y l IH]; simpl; [tauto|].
  intros [->|H]; [lia | specialize (IH H); lia].
Qed.

Lemma forest_height_incl (l l' : list Node) :
  incl l l' -> forest_height l <= forest_height l'.
Proof.
  intros H. unfold forest_height at 1. induction l as [|x l IH]; simpl.
  - lia.
  - assert (height x <= forest_height l')
      by (apply forest_height_In, H; left; reflexivity).
    assert (list_max (map height l) <= forest_height l')
      by (apply IH; intros y Hy; apply H; right; assumption).
    lia.
Qed.

(** ** Document order *)

Lemma list_remove_In (x : Node) (l : list Node) :
  In x l ->
  exists l', list_remove x l = Some l'
             /\ List.length l = S (List.length l')
             /\ (forall y, y <> x -> In y l -> In y l').
Proof.
  induction l as [|a l IH]; simpl; [tauto|].
  intros H. destruct (node_eqb a x) eqn:E.
  - exists l. apply node_eqb_eq in E. subst a. repeat split.
    intros y Hy [->|Hin]; [congruence | assumption].
  - apply node_eqb_neq in E.
    destruct H as [->|H]; [congruence|].
    destruct (IH H) as [l' [-> [Hlen Hin]]].
    exists (a :: l'). repeat split.
    + simpl. lia.
    + intros y Hy [->|Hy']; [left; reflexivity | right; auto].
Qed.

Lemma filter_none {A} (f : A -> bool) (l : list A) :
  (forall x, In x l -> f x = false) -> filter f l = [].
Proof.
  induction l as [|a l IH]; intros H; simpl; [reflexivity|].
  rewrite (H a) by (left; reflexivity).
  apply IH. intros x Hx. apply H. right. assumption.
Qed.

(** On a traversal without repetition the loop of [z_iter] neither raises
    nor stops too early: it yields the visited elements that are in
    [alist]. *)
Lemma z_iter_loop_filter (alist : list Node) :
  forall elements id_list,
    NoDup elements ->
    (forall x, In x elements -> In x alist -> In x id_list) ->
    z_iter_loop alist id_list (Z.of_nat (List.length id_list)) elements
    = Ok (filter (contains alist) elements).
Proof.
  induction elements as [|e rest IH]; intros id_list ND Hin; simpl.
  - reflexivity.
  - inversion ND as [|? ? Hnotin ND']; subst.
    destruct (contains alist e) eqn:C.
    + apply contains_In in C.
      destruct (list_remove_In e id_list) as [l' [-> [Hlen Hkeep]]].
      { apply Hin; [left; reflexivity | assumption]. }
      assert (Hin' : forall x, In x rest -> In x alist -> In x l').
      { intros x Hx Ha. apply Hkeep.
        - intros ->. contradiction.
        - apply Hin; [right; assumption | assumption]. }
      replace (Z.of_nat (List.length id_list) - 1)%Z
        with (Z.of_nat (List.length l')) by lia.
      destruct (Z.of_nat (List.length l') =? 0)%Z eqn:Z0.
      * apply Z.eqb_eq in Z0. destruct l'; [|simpl in Z0; lia].
        f_equal. f_equal. symmetry. apply filter_none.
        intros x Hx. apply contains_not_In. intros Ha.
        exact (Hin' x Hx Ha).
      * rewrite (IH l' ND' Hin'). reflexivity.
    + apply IH; [assumption|]. intros x Hx Ha. apply Hin; [right|]; assumption.
Qed.

Lemma z_sort_filter (root : Node) (alist : list Node) :
  wf_document root ->
  z_sort root alist = Ok (filter (contains alist) (iter root)).
Proof.
  intros WF. unfold z_sort, z_iter.
  apply z_iter_loop_filter; [exact WF | auto].
Qed.

(** Whatever the traversal, the yielded elements are visited elements that
    are in [alist]. *)
Lemma z_iter_loop_In (alist : list Node) :
  forall elements id_list count l,
    z_iter_loop alist id_list count elements = Ok l ->
    forall x, In x l -> In x elements /\ In x alist.
Proof.
  induction elements as [|e rest IH]; intros id_list count l; simpl.
  - intros E. injection E as <-. simpl. tauto.
  - destruct (contains alist e) eqn:C.
    + destruct (list_remove e id_list) as [l'|]; [|discriminate].
      apply contains_In in C.
      destruct (count - 1 =? 0)%Z.
      * intros E. injection E as <-. intros x [<-|[]]. auto.
      * destruct (z_iter_loop alist l' (count - 1) rest) as [l0|] eqn:R;
          simpl; [|discriminate].
        intros E. injection E as <-. intros x [<-|Hx]; [auto|].
        destruct (IH _ _ _ R x Hx). auto.
    + intros E x Hx. destruct (IH _ _ _ E x Hx). auto.
Qed.

Lemma z_sort_In (root : Node) (alist l : list Node) :
  z_sort root alist = Ok l ->
  forall x, In x l -> In x (iter root) /\ In x alist.
Proof. apply z_iter_loop_In. Qed.

(** *** Subsequences *)

Lemma Sublist_refl (l : list Node) : Sublist l l.
Proof. induction l; [apply Sublist_nil | apply Sublist_take; assumption]. Qed.

Lemma Sublist_In (l t : list Node) :
  Sublist l t -> forall x, In x l -> In x t.
Proof.
  induction 1; simpl; intros z Hz; [tauto | auto |].
  destruct Hz as [->|Hz]; auto.
Qed.

Lemma Sublist_trans (l m t : list Node) :
  Sublist l m -> Sublist m t -> Sublist l t.
Proof.
  intros H1 H2. revert l H1.
  induction H2 as [t|m y t H2 IH|x m t H2 IH]; intros l H1.
  - inversion H1. constructor.
  - constructor. auto.
  - inversion H1 as [|l0 y0 t0 H|x0 l0 t0 H]; subst.
    + apply Sublist_nil.
    + apply Sublist_skip. auto.
    + apply Sublist_take. auto.
Qed.

Lemma Sublist_app_skip (l p t : list Node) :
  Sublist l t -> Sublist l (p ++ t).
Proof.
  intros H. induction p; simpl; [assumption | apply Sublist_skip; assumption].
Qed.

Lemma Sublist_app (l1 l2 t1 t2 : list Node) :
  Sublist l1 t1 -> Sublist l2 t2 -> Sublist (l1 ++ l2) (t1 ++ t2).
Proof.
  intros H1 H2. induction H1; simpl.
  - apply Sublist_app_skip. assumption.
  - apply Sublist_skip. assumption.
  - apply Sublist_take. assumption.
Qed.

Lemma Sublist_filter (f : Node -> bool) (l : list Node) :
  Sublist (filter f l) l.
Proof.
  induction l as [|a l IH]; simpl; [apply Sublist_nil|].
  destruct (f a); [apply Sublist_take | apply Sublist_skip]; assumption.
Qed.



(** A subsequence of a traversal without repetition is what filtering the
    traversal by membership in it gives back. *)
Lemma filter_contains_Sublist (l t : list Node) :
  Sublist l t -> NoDup t -> filter (contains l) t = l.
Proof.
  induction 1 as [t|l y t H IH|x l t H IH]; intros ND.
  - apply filter_none. reflexivity.
  - inversion ND as [|? ? Hy ND']; subst. simpl.
    replace (contains l y) with false; [auto|].
    symmetry. apply contains_not_In. intros Hin.
    apply Hy. eapply Sublist_In; eassumption.
  - inversion ND as [|? ? Hx ND']; subst. simpl.
    unfold contains at 1. simpl. rewrite node_eqb_refl. simpl. f_equal.
    rewrite <- (IH ND') at 2. apply filter_ext_in.
    intros a Ha. unfold contains. simpl.
    replace (node_eqb a x) with false; [reflexivity|].
    symmetry. apply node_eqb_neq. intros ->. contradiction.
Qed.

Lemma Sublist_flat_map_iter (cs : list Node) :
  Sublist cs (flat_map iter cs).
Proof.
  induction cs as [|c cs IH]; simpl; [apply Sublist_nil|].
  rewrite iter_head. simpl. apply Sublist_take.
  apply Sublist_app_skip. assumption.
Qed.

Lemma Sublist_iter_flat_map (c : Node) (cs : list Node) :
  In c cs -> Sublist (iter c) (flat_map iter cs).
Proof.
  induction cs as [|a cs IH]; simpl; [tauto|].
  intros [->|H].
  - rewrite <- (app_nil_r (iter c)) at 1.
    apply Sublist_app; [apply Sublist_refl | apply Sublist_nil].
  - apply Sublist_app_skip. auto.
Qed.

Lemma Sublist_iter_In (root : Node) :
  forall d, In d (iter root) -> Sublist (iter d) (iter root).
Proof.
  induction root as [i k cs IH] using Node_ind'. intros d Hd.
  simpl in Hd. destruct Hd as [<-|Hd]; [apply Sublist_refl|].
  simpl. apply Sublist_skip.
  apply in_flat_map in Hd. destruct Hd as [c [Hc Hd]].
  rewrite Forall_forall in IH.
  eapply Sublist_trans; [apply (IH c Hc d Hd)|].
  apply Sublist_iter_flat_map. assumption.
Qed.

Lemma Sublist_children_iter (root d : Node) :
  In d (iter root) -> Sublist (children d) (iter root).
Proof.
  intros Hd. eapply Sublist_trans; [|apply Sublist_iter_In; eassumption].
  rewrite iter_head. apply Sublist_skip. apply Sublist_flat_map_iter.
Qed.

(** A list already in document order is left as it is. *)
Lemma z_sort_sorted (root : Node) (l : list Node) :
  wf_document root -> Sublist l (iter root) -> z_sort root l = Ok l.
Proof.
  intros WF H. rewrite z_sort_filter by assumption.
  f_equal. apply filter_contains_Sublist; assumption.
Qed.

(** ** Properties of the document order *)

(** C2.  Ordering is idempotent: in a well-formed document [z_sort]
    returns a list for every collection [S] of elements, and ordering that
    list again returns the same list. *)
Theorem z_sort_idempotent (root : Node) (S : list Node) :
  wf_document root ->
  exists l, z_sort root S = Ok l /\ z_sort root l = Ok l.
Proof.
  intros WF. exists (filter (contains S) (iter root)). split.
  - apply z_sort_filter. assumption.
  - apply z_sort_sorted; [assumption | apply Sublist_filter].
Qed.

Lemma wf_sample_doc : wf_document Sample.doc.
Proof.
  apply unique_ids_wf.
  vm_compute. repeat constructor; simpl; intuition discriminate.
Qed.

Lemma z_sort_idempotent_witness :
  wf_document Sample.doc /\
  exists l, z_sort Sample.doc [Sample.g9; Sample.c7; Sample.g1; Sample.g9] = Ok l
            /\ z_sort Sample.doc l = Ok l.
Proof.
  split; [exact wf_sample_doc|].
  apply (z_sort_idempotent Sample.doc _ wf_sample_doc).
Defined.

(** C10.  In a well-formed document, [z_sort] returns, without raising,
    a list in which no element occurs twice, whatever the repetitions in
    the input; its elements are the input elements that the traversal
    from the root reaches, so unreachable elements are left out and the
    output is never longer than the input, and strictly shorter as soon as
    the input has an unreachable or a repeated element. *)
Theorem z_sort_distinct_reachable (root : Node) (alist : list Node) :
  wf_document root ->
  exists l,
    z_sort root alist = Ok l
    /\ NoDup l
    /\ (forall x, In x l <-> In x alist /\ In x (iter root))
    /\ List.length l <= List.length alist
    /\ ((exists x, In x alist /\ ~ In x (iter root)) \/ ~ NoDup alist ->
        List.length l < List.length alist).
Proof.
  intros WF. exists (filter (contains alist) (iter root)).
  assert (ND : NoDup (filter (contains alist) (iter root)))
    by (apply NoDup_filter; exact WF).
  assert (Inc : incl (filter (contains alist) (iter root)) alist).
  { intros x Hx. apply filter_In in Hx. apply contains_In. tauto. }
  split; [apply z_sort_filter; assumption|].
  split; [assumption|].
  split; [|split].
  - intros x. rewrite filter_In, contains_In. tauto.
  - apply NoDup_incl_length; assumption.
  - intros H.
    destruct (Nat.lt_ge_cases (List.length (filter (contains alist) (iter root)))
                (List.length alist)) as [Lt|Ge]; [assumption|exfalso].
    destruct H as [[x [Hx Hn]]|Hdup].
    + apply Hn.
      assert (Hin : In x (filter (contains alist) (iter root)))
        by (eapply NoDup_length_incl; eassumption).
      apply filter_In in Hin. tauto.
    + apply Hdup. eapply NoDup_incl_NoDup; eassumption.
Qed.

Lemma z_sort_distinct_reachable_witness :
  wf_document Sample.doc /\
  exists l,
    z_sort Sample.doc [Sample.g9; Sample.path 99; Sample.c7; Sample.g9] = Ok l
    /\ NoDup l
    /\ (forall x, In x l <->
                  In x [Sample.g9; Sample.path 99; Sample.c7; Sample.g9]
                  /\ In x (iter Sample.doc))
    /\ List.length l <= 4
    /\ ((exists x, In x [Sample.g9; Sample.path 99; Sample.c7; Sample.g9]
                   /\ ~ In x (iter Sample.doc))
        \/ ~ NoDup [Sample.g9; Sample.path 99; Sample.c7; Sample.g9] ->
        List.length l < 4).
Proof.
  split; [exact wf_sample_doc|].
  exact (z_sort_distinct_reachable Sample.doc
           [Sample.g9; Sample.path 99; Sample.c7; Sample.g9] wf_sample_doc).
Defined.

(** ** Runs *)

Lemma bind_lift_Ok {A B} (a : A) (k : A -> Run B) : bind (lift (Ok a)) k = k a.
Proof.
  unfold bind, lift. destruct (k a) as [[w r]|]; reflexivity.
Qed.

Lemma bind_ret {A B} (a : A) (k : A -> Run B) : bind (ret a) k = k a.
Proof. apply bind_lift_Ok. Qed.

Lemma bind_Some_Ok {A B} (w : list string) (a : A) (k : A -> Run B) :
  bind (Some (w, Ok a)) k
  = match k a with
    | None => None
    | Some (w', r) => Some (w ++ w', r)
    end.
Proof. reflexivity. Qed.

Lemma bind_not_None {A B} (m : Run A) (k : A -> Run B) :
  m <> None -> (forall w a, m = Some (w, Ok a) -> k a <> None) ->
  bind m k <> None.
Proof.
  intros Hm Hk. unfold bind. destruct m as [[w [a|e]]|]; try congruence.
  specialize (Hk w a eq_refl). destruct (k a) as [[w' r]|]; congruence.
Qed.


(** ** The loops of [recurse] *)

Lemma classify_to_recurse (ty : string) (imm : bool) (objs m r : list Node) :
  classify ty imm objs = Ok (m, r) ->
  r = (if imm then [] else objs) /\ incl m objs.
Proof.
  revert m r. induction objs as [|o objs IH]; simpl; intros m r.
  - intros E. injection E as <- <-. destruct imm; split; auto using incl_nil_l.
  - destruct (match_type_of ty o) as [b|]; simpl; [|discriminate].
    destruct (classify ty imm objs) as [[m' r']|]; simpl; [|discriminate].
    destruct (IH m' r' eq_refl) as [-> Hm].
    intros E. injection E as <- <-. split.
    + destruct imm; reflexivity.
    + destruct b; [apply incl_cons; [left; reflexivity|] |];
        apply incl_tl; assumption.
Qed.

Lemma classify_resolves (ty : string) (imm : bool) (objs : list Node) :
  resolves ty = true ->
  classify ty imm objs
  = Ok (filter (satisfies ty) objs, if imm then [] else objs).
Proof.
  unfold resolves, satisfies. intros R.
  induction objs as [|o objs IH]; simpl.
  - destruct imm; reflexivity.
  - rewrite IH. unfold match_type_of.
    destruct (String.eqb ty "*"); simpl.
    + destruct imm; reflexivity.
    + destruct (tag_dict ty); [|discriminate]. simpl.
      destruct (String.eqb (type_name o) s), imm; reflexivity.
Qed.

Lemma classify_unresolved (ty : string) (imm : bool) (o : Node) objs :
  resolves ty = false ->
  classify ty imm (o :: objs) = Raise (KeyError ty).
Proof.
  unfold resolves. intros R. simpl. unfold match_type_of.
  destruct (String.eqb ty "*"); [discriminate|].
  destruct (tag_dict ty); [discriminate|]. reflexivity.
Qed.

Lemma classify_Ok_resolves ty imm o objs mr :
  classify ty imm (o :: objs) = Ok mr -> resolves ty = true.
Proof.
  destruct (resolves ty) eqn:R; [reflexivity|].
  rewrite classify_unresolved by assumption. discriminate.
Qed.

Lemma py_index_In {A} (l : list A) (i : Z) (x : A) :
  py_index l i = Some x -> In x l.
Proof.
  unfold py_index.
  destruct (_ || _); [discriminate|]. apply nth_error_In.
Qed.

Lemma py_slice_incl {A} (l : list A) a b c out :
  py_slice l a b c = Ok out -> incl out l.
Proof.
  unfold py_slice. destruct (_ =? 0)%Z; [discriminate|].
  intros E. injection E as <-. intros x Hx.
  apply in_flat_map in Hx. destruct Hx as [k [_ Hx]].
  destruct (nth_error l _) as [y|] eqn:N; [|contradiction].
  destruct Hx as [<-|[]]. eapply nth_error_In. eassumption.
Qed.

Lemma select_matches_not_None sel mt : select_matches sel mt <> None.
Proof.
  unfold select_matches, lift, ret, msg, bind.
  destruct sel as [|i|parts]; try discriminate.
  - destruct (py_index mt i); discriminate.
  - destruct (nth_error parts 1) as [[z|]|]; try discriminate.
    destruct parts as [|a [|b [|c [|]]]]; discriminate.
Qed.

Lemma select_matches_incl sel mt w out :
  select_matches sel mt = Some (w, Ok out) -> incl out mt.
Proof.
  unfold select_matches, lift, ret, msg, bind.
  destruct sel as [|i|parts].
  - intros E. injection E as <- <-. apply incl_refl.
  - destruct (py_index mt i) as [x|] eqn:P; intros E; injection E as <- <-.
    + intros y [<-|[]]. eapply py_index_In. eassumption.
    + apply incl_nil_l.
  - destruct (nth_error parts 1) as [[z|]|]; [|discriminate|].
    + destruct parts as [|a [|b [|c [|]]]]; try discriminate; intros E;
        match type of E with
        | Some (_, ?r) = _ => assert (R : r = Ok out) by congruence
        end;
        eapply py_slice_incl; exact R.
    + intros E. injection E as <- <-. apply incl_nil_l.
Qed.

Lemma recurse_into_not_None call to_recurse :
  (forall obj, In obj to_recurse -> is_iterable obj = true ->
               call (children obj) <> None) ->
  recurse_into call to_recurse <> None.
Proof.
  induction to_recurse as [|o l IH]; intros H; simpl; [discriminate|].
  assert (IH' : recurse_into call l <> None)
    by (apply IH; intros obj Hin; apply H; right; assumption).
  destruct (is_iterable o) eqn:I; [|assumption].
  apply bind_not_None; [apply H; [left; reflexivity | assumption]|].
  intros w a _. apply bind_not_None; [assumption | discriminate].
Qed.

(** Nodes that are not containers contribute nothing, and are not even
    passed to the recursive call. *)
Lemma recurse_into_leaves call to_recurse :
  Forall (fun obj => is_iterable obj = false) to_recurse ->
  recurse_into call to_recurse = ret [].
Proof.
  induction 1 as [|o l Ho _ IH]; simpl; [reflexivity|].
  rewrite Ho. assumption.
Qed.

Lemma recurse_S depth root objects cur_xpath :
  recurse (S depth) root objects cur_xpath
  = (objects <- lift (z_sort root objects) ;;
     m <- lift (match findall_first cur_xpath with
                | Some m => Ok m
                | None => Raise IndexError
                end) ;;
     let only_immediate := immediate m in
     this_n <- lift (convert_this_n (this_n m)) ;;
     '(matching_types, to_recurse) <-
        lift (classify (this_type m) only_immediate objects) ;;
     matches <- select_matches this_n matching_types ;;
     let '(output, to_recurse) :=
       if only_immediate then
         if String.eqb (next_xpath m) "" then (matches, to_recurse)
         else ([], to_recurse ++ matches)
       else (matches, to_recurse) in
     outs <- recurse_into
               (fun kids =>
                  recurse depth root kids
                    (if only_immediate then next_xpath m else cur_xpath))
               to_recurse ;;
     ret (output ++ outs)).
Proof. reflexivity. Qed.

(** One call of [recurse] whose candidates are ordered, whose step is read
    and whose types are looked up without an exception. *)
Lemma recurse_step depth root objects cur_xpath objs m sel mt tr :
  z_sort root objects = Ok objs ->
  findall_first cur_xpath = Some m ->
  convert_this_n (this_n m) = Ok sel ->
  classify (this_type m) (immediate m) objs = Ok (mt, tr) ->
  recurse (S depth) root objects cur_xpath
  = (matches <- select_matches sel mt ;;
     outs <- recurse_into
               (fun kids =>
                  recurse depth root kids
                    (if immediate m then next_xpath m else cur_xpath))
               (if immediate m
                then if String.eqb (next_xpath m) "" then [] else matches
                else objs) ;;
     ret ((if immediate m
           then if String.eqb (next_xpath m) "" then matches else []
           else matches) ++ outs)).
Proof.
  intros Hz Hf Hc Hk. rewrite recurse_S, Hz, bind_lift_Ok, Hf, bind_lift_Ok.
  cbv zeta. rewrite Hc, bind_lift_Ok, Hk, bind_lift_Ok.
  destruct (classify_to_recurse _ _ _ _ _ Hk) as [-> _].
  destruct (immediate m); [destruct (String.eqb (next_xpath m) "")|];
    reflexivity.
Qed.

(** ** Termination *)

(** If a call of [recurse] gets as far as its last loop, the nodes it
    recurses into are among its candidates. *)
Lemma to_recurse_incl root objects objs ty imm mt tr sel w matches nx :
  z_sort root objects = Ok objs ->
  classify ty imm objs = Ok (mt, tr) ->
  select_matches sel mt = Some (w, Ok matches) ->
  incl (snd (if imm then
               if String.eqb nx "" then (matches, tr)
               else ([], tr ++ matches)
             else (matches, tr)))
       objects.
Proof.
  intros Hz Hk Hs.
  destruct (classify_to_recurse _ _ _ _ _ Hk) as [-> Hmt].
  assert (Hobjs : incl objs objects)
    by (intros x Hx; eapply z_sort_In; eassumption).
  assert (Hm : incl matches objects).
  { intros x Hx. apply Hobjs, Hmt.
    eapply select_matches_incl; eassumption. }
  destruct imm; [destruct (String.eqb nx "")|]; simpl;
    auto using incl_nil_l.
Qed.

Lemma recurse_bounded_by_height root :
  forall depth objects cur_xpath,
    forest_height objects < depth ->
    recurse depth root objects cur_xpath <> None.
Proof.
  induction depth as [|depth IH]; intros objects cur_xpath Hh; [lia|].
  rewrite recurse_S.
  destruct (z_sort root objects) as [objs|e] eqn:Hz;
    [rewrite bind_lift_Ok | discriminate].
  destruct (findall_first cur_xpath) as [m|];
    [rewrite bind_lift_Ok | discriminate].
  cbv zeta.
  destruct (convert_this_n (this_n m)) as [sel|];
    [rewrite bind_lift_Ok | discriminate].
  destruct (classify (this_type m) (immediate m) objs) as [[mt tr]|] eqn:Hk;
    [rewrite bind_lift_Ok | discriminate].
  apply bind_not_None; [apply select_matches_not_None|].
  intros w matches Hs.
  pose proof (to_recurse_incl _ _ _ _ _ _ _ _ _ _ (next_xpath m) Hz Hk Hs)
    as Hincl.
  destruct (if immediate m
            then if String.eqb (next_xpath m) "" then (matches, tr)
                 else ([], tr ++ matches)
            else (matches, tr)) as [output to_recurse].
  simpl in Hincl.
  apply bind_not_None; [|discriminate].
  apply recurse_into_not_None. intros obj Hin _. apply IH.
  assert (height obj <= forest_height objects)
    by (apply forest_height_In, Hincl; assumption).
  rewrite height_children in *. lia.
Qed.

Lemma recurse_bounded_by_steps root :
  forall n cur_xpath steps,
    steps_of n cur_xpath = Some steps ->
    forallb immediate steps = true ->
    forall depth objects,
      List.length steps <= depth ->
      recurse depth root objects cur_xpath <> None.
Proof.
  induction n as [|n IH]; intros cur_xpath steps; simpl; [discriminate|].
  destruct (findall_first cur_xpath) as [m|] eqn:Hf; [|discriminate].
  intros Hsteps Himm depth objects Hd.
  assert (Hm : immediate m = true /\
               (String.eqb (next_xpath m) "" = false ->
                exists steps', steps_of n (next_xpath m) = Some steps'
                               /\ forallb immediate steps' = true
                               /\ S (List.length steps') <= depth)).
  { destruct (String.eqb (next_xpath m) "").
    - injection Hsteps as <-. simpl in Himm.
      apply andb_true_iff in Himm. split; [tauto | discriminate].
    - destruct (steps_of n (next_xpath m)) as [steps'|]; [|discriminate].
      injection Hsteps as <-. simpl in Himm, Hd.
      apply andb_true_iff in Himm. split; [tauto|].
      intros _. exists steps'. tauto. }
  destruct Hm as [Hi Hnext].
  destruct depth as [|depth];
    [destruct steps; [destruct (String.eqb (next_xpath m) "");
                      [|destruct (steps_of n (next_xpath m))]; discriminate
                     | simpl in Hd; lia]|].
  rewrite recurse_S, Hf.
  destruct (z_sort root objects) as [objs|e] eqn:Hz;
    [rewrite bind_lift_Ok | discriminate].
  rewrite bind_lift_Ok. cbv zeta. rewrite Hi.
  destruct (convert_this_n (this_n m)) as [sel|];
    [rewrite bind_lift_Ok | discriminate].
  destruct (classify (this_type m) true objs) as [[mt tr]|] eqn:Hk;
    [rewrite bind_lift_Ok | discriminate].
  destruct (classify_to_recurse _ _ _ _ _ Hk) as [-> _].
  apply bind_not_None; [apply select_matches_not_None|].
  intros w matches _.
  destruct (String.eqb (next_xpath m) "").
  - simpl. discriminate.
  - destruct (Hnext eq_refl) as [steps' [Hs' [Hi' Hd']]].
    apply bind_not_None; [|discriminate].
    apply recurse_into_not_None. intros obj _ _.
    apply (IH _ _ Hs' Hi'). lia.
Qed.

(** *** The steps of an expression *)

Lemma span_length p s a b :
  span p s = (a, b) -> String.length a + String.length b = String.length s.
Proof.
  revert a b. induction s as [|c s IH]; simpl; intros a b.
  - intros E. injection E as <- <-. reflexivity.
  - destruct (p c).
    + destruct (span p s) as [a' b']. intros E. injection E as <- <-.
      simpl. rewrite (IH a' b' eq_refl). reflexivity.
    + intros E. injection E as <- <-. reflexivity.
Qed.

Lemma match_type_length s ty r :
  match_type s = Some (ty, r) -> String.length r < String.length s.
Proof.
  unfold match_type. destruct (span is_word s) as [w r'] eqn:Sp.
  apply span_length in Sp. destruct w as [|c w].
  - destruct s as [|c s]; [discriminate|].
    destruct (Ascii.eqb c "*"%char) eqn:E.
    + apply Ascii.eqb_eq in E. subst c. intros H. injection H as <- <-.
      simpl. lia.
    + intros H. exfalso. apply Ascii.eqb_neq in E.
      destruct c as [[] [] [] [] [] [] [] []]; try discriminate.
      apply E. reflexivity.
  - intros H. injection H as <- <-. simpl in Sp. lia.
Qed.

Lemma match_minus_length s sg r :
  match_minus s = (sg, r) -> String.length r <= String.length s.
Proof.
  unfold match_minus. destruct s as [|c s].
  - intros E. injection E as <- <-. lia.
  - destruct c as [[] [] [] [] [] [] [] []];
      intros E; injection E as <- <-; simpl; lia.
Qed.

Lemma match_bound_length s b r :
  match_bound s = Some (b, r) -> String.length r <= String.length s.
Proof.
  unfold match_bound. destruct s as [|c s]; [discriminate|].
  destruct c as [[] [] [] [] [] [] [] []]; try discriminate.
  destruct (match_minus s) as [sg r1] eqn:M.
  destruct (span is_digit r1) as [ds r2] eqn:Sp.
  apply match_minus_length in M. apply span_length in Sp.
  intros E. injection E as <- <-. simpl. lia.
Qed.

Lemma match_index_length s n r :
  match_index s = Some (n, r) -> String.length r <= String.length s.
Proof.
  unfold match_index. destruct s as [|c s]; [discriminate|].
  destruct c as [[] [] [] [] [] [] [] []]; try discriminate.
  destruct (match_minus s) as [sg s2] eqn:M.
  destruct (span is_digit s2) as [ds s3] eqn:Sp.
  apply match_minus_length in M. apply span_length in Sp.
  destruct ds as [|d ds]; [discriminate|].
  assert (B : forall t p, (match match_bound t with
                           | Some p => p
                           | None => (EmptyString, t)
                           end) = p ->
                          String.length (snd p) <= String.length t).
  { intros t [b r']. destruct (match_bound t) as [[b0 r0]|] eqn:Mb.
    - intros E. injection E as <- <-. eapply match_bound_length. eassumption.
    - intros E. injection E as <- <-. simpl. lia. }
  destruct (match match_bound s3 with
            | Some p => p
            | None => (EmptyString, s3)
            end) as [b1 s4] eqn:B1.
  apply B in B1. simpl in B1.
  destruct (match b1 with
            | EmptyString => (EmptyString, s4)
            | String _ _ =>
                match match_bound s4 with
                | Some p => p
                | None => (EmptyString, s4)
                end
            end) as [b2 s5] eqn:B2.
  assert (String.length s5 <= String.length s4).
  { destruct b1.
    - injection B2 as <- <-. lia.
    - apply B in B2. assumption. }
  destruct s5 as [|c5 s5]; [discriminate|].
  destruct c5 as [[] [] [] [] [] [] [] []]; try discriminate.
  intros E. injection E as <- <-. simpl in *. lia.
Qed.

Lemma match_after_axis_length ax s m :
  match_after_axis ax s = Some m ->
  String.length (next_xpath m) < String.length s /\ axis m = ax.
Proof.
  unfold match_after_axis.
  destruct (match_type s) as [[ty r2]|] eqn:T; [|discriminate].
  apply match_type_length in T.
  destruct (match match_index r2 with
            | Some p => p
            | None => (EmptyString, r2)
            end) as [n r3] eqn:I.
  assert (String.length r3 <= String.length r2).
  { destruct (match_index r2) as [[n0 r0]|] eqn:Mi.
    - injection I as <- <-. eapply match_index_length. eassumption.
    - injection I as <- <-. lia. }
  destruct (span _ r3) as [nx rest] eqn:Sp. apply span_length in Sp.
  intros E. injection E as <-. simpl. split; [lia | reflexivity].
Qed.

Lemma match_step_length s m :
  match_step s = Some m ->
  String.length (next_xpath m) + 2 <= String.length s.
Proof.
  unfold match_step. destruct s as [|c r]; [discriminate|].
  destruct (Ascii.eqb c "/"%char) eqn:E;
    [apply Ascii.eqb_eq in E; subst c
    | destruct c as [[] [] [] [] [] [] [] []]; discriminate].
  assert (One : match_after_axis "/" r = Some m ->
                String.length (next_xpath m) + 2 <= String.length (String "/" r)).
  { intros H. apply match_after_axis_length in H. simpl. lia. }
  destruct r as [|c' r']; [exact One|].
  destruct (Ascii.eqb c' "/"%char) eqn:E';
    [apply Ascii.eqb_eq in E'; subst c'
    | destruct c' as [[] [] [] [] [] [] [] []]; try exact One; discriminate].
  destruct (match_after_axis "//" r') as [m'|] eqn:Two; [|exact One].
  intros H. injection H as <-.
  apply match_after_axis_length in Two. simpl. lia.
Qed.

Lemma findall_first_length s m :
  findall_first s = Some m ->
  String.length (next_xpath m) + 2 <= String.length s.
Proof.
  induction s as [|c s IH].
  - simpl. discriminate.
  - cbn [findall_first]. destruct (match_step (String c s)) as [m'|] eqn:M.
    + intros E. injection E as <-. apply match_step_length. assumption.
    + intros H. specialize (IH H). simpl. lia.
Qed.

(** The bound that [step_list] gives to [steps_of] is never reached: a
    larger one reads the same steps. *)
Lemma steps_of_enough :
  forall n xpath n',
    String.length xpath <= n -> n <= n' ->
    steps_of n' xpath = steps_of n xpath.
Proof.
  induction n as [|n IH]; intros xpath n' Hl Hn.
  - destruct xpath; [|simpl in Hl; lia]. destruct n'; reflexivity.
  - destruct n' as [|n']; [lia|]. simpl.
    destruct (findall_first xpath) as [m|] eqn:F; [|reflexivity].
    apply findall_first_length in F.
    destruct (String.eqb (next_xpath m) ""); [reflexivity|].
    rewrite (IH (next_xpath m) n') by lia. reflexivity.
Qed.

Lemma find_candidates depth root obj xpath :
  find depth root obj xpath = recurse depth root (candidates obj) xpath.
Proof.
  destruct obj as [values|e|items]; simpl; try reflexivity.
  destruct (String.eqb (type_name e) "SvgDocumentElement"); reflexivity.
Qed.

(** C8.  Evaluation terminates, with a value or an exception: a query
    needs no more nested calls of [recurse] than the candidates have
    levels, whatever the expression, and, when every step of the
    expression has the immediate axis, no more than the expression has
    steps; a node that is not a container is not recursed into and adds
    nothing to the output. *)
Theorem find_terminates (root : Node) (depth : nat) (obj : QueryObject)
    (xpath : string) :
  (forest_height (candidates obj) < depth ->
   find depth root obj xpath <> None)
  /\ (forall steps,
        step_list xpath = Some steps ->
        forallb immediate steps = true ->
        List.length steps <= depth ->
        find depth root obj xpath <> None)
  /\ (forall call to_recurse,
        Forall (fun o => is_iterable o = false) to_recurse ->
        recurse_into call to_recurse = ret []).
Proof.
  rewrite find_candidates. split; [|split].
  - apply recurse_bounded_by_height.
  - intros steps Hs Hi Hd.
    eapply recurse_bounded_by_steps; eassumption.
  - apply recurse_into_leaves.
Qed.

Lemma find_terminates_witness :
  find 4 Sample.doc (Element Sample.doc) "//g[0]/p" <> None
  /\ find 2 Sample.doc (Element Sample.doc) "/g/*[-1]" <> None
  /\ recurse_into (fun _ => None) [Sample.c7; Sample.defs 1] = ret [].
Proof.
  destruct (find_terminates Sample.doc 4 (Element Sample.doc) "//g[0]/p")
    as [H1 _].
  destruct (find_terminates Sample.doc 2 (Element Sample.doc) "/g/*[-1]")
    as [_ [H2 H3]].
  split; [apply H1; vm_compute; lia|].
  split.
  - apply (H2 [mkStepMatch "/" "g" "" "/*[-1]"; mkStepMatch "/" "*" "-1" ""]);
      [reflexivity | reflexivity | simpl; lia].
  - apply H3. repeat constructor.
Defined.

(** ** Descendant steps *)

Lemma recurse_into_ext call1 call2 to_recurse :
  (forall kids, call1 kids = call2 kids) ->
  recurse_into call1 to_recurse = recurse_into call2 to_recurse.
Proof.
  intros H. induction to_recurse as [|o l IH]; simpl; [reflexivity|].
  rewrite IH, H. reflexivity.
Qed.

Lemma immediate_false m : axis m = "//" -> immediate m = false.
Proof. unfold immediate. intros ->. reflexivity. Qed.




(** ** The nodes a query returns *)



(** *** The wildcard on the descendant axis *)

Lemma below_unfold (o : Node) :
  below o = if is_iterable o then level_first (children o) else [].
Proof. destruct o; reflexivity. Qed.


Lemma filter_all {A} (f : A -> bool) (l : list A) :
  (forall x, f x = true) -> filter f l = l.
Proof.
  intros H. induction l as [|a l IH]; simpl; [reflexivity|].
  rewrite H, IH. reflexivity.
Qed.

Lemma recurse_into_wildcard call (depth : nat) (root : Node) :
  (forall kids, Sublist kids (iter root) -> forest_height kids < depth ->
                call kids = Some ([], Ok (level_first kids))) ->
  wf_document root ->
  forall l, incl l (iter root) -> forest_height l <= depth ->
            recurse_into call l = Some ([], Ok (flat_map below l)).
Proof.
  intros Hcall WF. induction l as [|o l IH]; intros Hin Hh; [reflexivity|].
  assert (Ho : In o (iter root)) by (apply Hin; left; reflexivity).
  assert (Hho : height o <= depth).
  { etransitivity; [|exact Hh]. apply forest_height_In. left. reflexivity. }
  assert (IH' : recurse_into call l = Some ([], Ok (flat_map below l))).
  { apply IH.
    - intros x Hx. apply Hin. right. assumption.
    - etransitivity; [|exact Hh]. apply forest_height_incl.
      intros x Hx. right. assumption. }
  simpl. rewrite below_unfold. destruct (is_iterable o).
  - rewrite Hcall, IH'; [reflexivity | |].
    + apply Sublist_children_iter. assumption.
    + rewrite height_children in Hho. lia.
  - assumption.
Qed.

(** A descendant step on the wildcard, without selector, returns its
    candidates followed by what is collected below each of them. *)
Lemma recurse_wildcard_descendant root xpath m :
  findall_first xpath = Some m ->
  axis m = "//" -> this_type m = "*" -> this_n m = "" ->
  wf_document root ->
  forall depth objs,
    Sublist objs (iter root) -> forest_height objs < depth ->
    recurse depth root objs xpath = Some ([], Ok (level_first objs)).
Proof.
  intros F A T N WF.
  induction depth as [|depth IH]; intros objs Hs Hh; [lia|].
  assert (Hk : classify (this_type m) (immediate m) objs = Ok (objs, objs)).
  { rewrite classify_resolves by (rewrite T; reflexivity).
    rewrite (immediate_false m A), filter_all; [reflexivity|].
    intros x. unfold satisfies. rewrite T. reflexivity. }
  assert (Hc : convert_this_n (this_n m) = Ok NoSelector)
    by (rewrite N; reflexivity).
  rewrite (recurse_step _ _ _ _ _ _ _ _ _ (z_sort_sorted _ _ WF Hs) F Hc Hk).
  rewrite (immediate_false m A). simpl select_matches. rewrite bind_ret.
  rewrite (recurse_into_wildcard _ depth root IH WF).
  - reflexivity.
  - intros x. apply Sublist_In. assumption.
  - lia.
Qed.






Lemma forest_height_top (root : Node) (f : Node -> bool) :
  forest_height (filter f (children root)) < height root.
Proof.
  rewrite height_children.
  assert (forest_height (filter f (children root))
          <= forest_height (children root)); [|lia].
  apply forest_height_incl. intros x Hx. apply filter_In in Hx. tauto.
Qed.

Lemma Sublist_top_iter (root : Node) (f : Node -> bool) :
  Sublist (filter f (children root)) (iter root).
Proof.
  eapply Sublist_trans; [apply Sublist_filter|].
  rewrite iter_head. apply Sublist_skip. apply Sublist_flat_map_iter.
Qed.

(** The wildcard descendant query on the root of the document. *)
Lemma find_root_wildcard_descendant root depth :
  wf_document root ->
  type_name root = "SvgDocumentElement" ->
  height root <= depth ->
  find depth root (Element root) "//*"
  = Some ([], Ok (level_first
                    (filter (fun c => negb (is_meta c)) (children root)))).
Proof.
  intros WF K Hh. rewrite find_candidates. cbn [candidates].
  rewrite K, String.eqb_refl.
  apply (recurse_wildcard_descendant root "//*" (mkStepMatch "//" "*" "" ""));
    try reflexivity; try assumption.
  - apply Sublist_top_iter.
  - pose proof (forest_height_top root (fun c => negb (is_meta c))). lia.
Qed.

(** A last step on the wildcard with the immediate axis and no selector
    returns its candidates, in document order. *)
Lemma recurse_wildcard_immediate root xpath m :
  findall_first xpath = Some m ->
  immediate m = true -> this_type m = "*" -> this_n m = "" ->
  next_xpath m = "" ->
  wf_document root ->
  forall depth objects,
    recurse (S depth) root objects xpath
    = Some ([], Ok (filter (contains objects) (iter root))).
Proof.
  intros F I T N X WF depth objects.
  set (objs := filter (contains objects) (iter root)).
  assert (Hk : classify (this_type m) (immediate m) objs = Ok (objs, [])).
  { rewrite classify_resolves by (rewrite T; reflexivity).
    rewrite I, filter_all; [reflexivity|].
    intros x. unfold satisfies. rewrite T. reflexivity. }
  assert (Hc : convert_this_n (this_n m) = Ok NoSelector)
    by (rewrite N; reflexivity).
  rewrite (recurse_step _ _ _ _ _ _ _ _ _ (z_sort_filter _ _ WF) F Hc Hk).
  rewrite I, X. simpl. rewrite app_nil_r. reflexivity.
Qed.

Lemma is_iterable_not_meta (o : Node) :
  is_iterable o = true -> is_meta o = false.
Proof.
  unfold is_iterable, is_meta. simpl. rewrite !orb_false_r.
  intros H. apply orb_true_iff in H.
  destruct H as [H|H]; apply String.eqb_eq in H; rewrite H; reflexivity.
Qed.

(** ** Properties of the query *)


(** C7 (counterexample).  A bookkeeping node in a plain list of candidates
    is not filtered out. *)
Lemma meta_filter_not_applied_to_plain_list :
  is_meta (Sample.defs 1) = true
  /\ find 1 Sample.doc (PlainList [Sample.defs 1]) "/*"
     = Some ([], Ok [Sample.defs 1]).
Proof. split; vm_compute; reflexivity. Qed.

(** *** Index selectors *)

Lemma filter_filter_ext {A} (p q r : A -> bool) (t : list A) :
  (forall x, In x t -> q x && p x = r x) ->
  filter p (filter q t) = filter r t.
Proof.
  induction t as [|a t IH]; intros H; simpl; [reflexivity|].
  assert (IH' : filter p (filter q t) = filter r t)
    by (apply IH; intros x Hx; apply H; right; assumption).
  rewrite <- (H a) by (left; reflexivity).
  destruct (q a); simpl; [destruct (p a)|]; rewrite IH'; reflexivity.
Qed.

(** A last step with the immediate axis on a code of [tag_dict]: the
    selector is applied to the candidates of that type, in document
    order. *)
Lemma recurse_immediate_last root xpath m name sel :
  findall_first xpath = Some m ->
  immediate m = true -> next_xpath m = "" ->
  String.eqb (this_type m) "*" = false ->
  tag_dict (this_type m) = Some name ->
  convert_this_n (this_n m) = Ok sel ->
  wf_document root ->
  forall depth objects,
    recurse (S depth) root objects xpath
    = (matches <-
         select_matches sel
           (filter (fun o => String.eqb (type_name o) name)
                   (filter (contains objects) (iter root))) ;;
       ret matches).
Proof.
  intros F I X St T C WF depth objects.
  set (objs := filter (contains objects) (iter root)).
  assert (Hk : classify (this_type m) (immediate m) objs
               = Ok (filter (fun o => String.eqb (type_name o) name) objs,
                     [])).
  { rewrite classify_resolves by (unfold resolves; rewrite St, T; reflexivity).
    rewrite I. do 2 f_equal. apply filter_ext. intros o.
    unfold satisfies. rewrite St, T. reflexivity. }
  rewrite (recurse_step _ _ _ _ _ _ _ _ _ (z_sort_filter _ _ WF) F C Hk).
  rewrite I, X. simpl.
  destruct (select_matches sel _) as [[w [matches|e]]|]; try reflexivity.
  simpl. rewrite !app_nil_r. reflexivity.
Qed.

(** The groups among the candidates, when the candidates are groups that
    follow one another among the children of one node, and nodes of other
    types. *)
Lemma groups_of_candidates root parent gs others cands obj :
  wf_document root ->
  In parent (iter root) ->
  Sublist gs (children parent) ->
  Forall (fun o => type_name o = "Group") gs ->
  Forall (fun o => type_name o <> "Group") others ->
  Permutation cands (gs ++ others) ->
  obj = PlainList cands \/ obj = ElementList cands ->
  filter (fun o => String.eqb (type_name o) "Group")
         (filter (contains (candidates obj)) (iter root))
  = gs.
Proof.
  intros WF Hp Hs G Ho Hperm Hobj.
  rewrite <- (filter_contains_Sublist gs (iter root)) at 1;
    [| eapply Sublist_trans;
       [exact Hs | apply Sublist_children_iter; assumption]
     | exact WF].
  apply filter_filter_ext. intros x _.
  rewrite Forall_forall in G. rewrite Forall_forall in Ho.
  apply eq_iff_eq_true.
  rewrite andb_true_iff, !contains_In, String.eqb_eq. split.
  - intros [Hc Ht].
    assert (Hin : In x cands).
    { destruct Hobj as [->| ->]; simpl in Hc; [assumption|].
      apply filter_In in Hc. tauto. }
    apply (Permutation_in _ Hperm) in Hin. apply in_app_or in Hin.
    destruct Hin as [Hin|Hin]; [assumption|].
    exfalso. exact (Ho x Hin Ht).
  - intros Hin. split; [|apply G; assumption].
    assert (Hc : In x cands).
    { apply (Permutation_in _ (Permutation_sym Hperm)).
      apply in_or_app. left. assumption. }
    destruct Hobj as [->| ->]; simpl; [assumption|].
    apply filter_In. split; [assumption|].
    unfold is_meta. rewrite (G x Hin). reflexivity.
Qed.

(** *** An index out of range *)

Lemma recurse_into_total call to_recurse :
  (forall obj, In obj to_recurse -> is_iterable obj = true ->
               exists log out, call (children obj) = Some (log, Ok out)) ->
  exists log out, recurse_into call to_recurse = Some (log, Ok out).
Proof.
  induction to_recurse as [|o l IH]; intros H; simpl.
  - exists [], []. reflexivity.
  - destruct IH as [log' [out' IH]];
      [intros obj Hin; apply H; right; assumption|].
    destruct (is_iterable o) eqn:I; [|eauto].
    destruct (H o (or_introl eq_refl) I) as [log [out Ho]].
    rewrite Ho, bind_Some_Ok, IH. simpl. eauto.
Qed.

Lemma select_index_total i mt :
  exists log matches,
    select_matches (IndexSelector i) mt = Some (log, Ok matches).
Proof.
  unfold select_matches. destruct (py_index mt i) as [x|].
  - exists [], [x]. reflexivity.
  - exists ["WARN: list index out of range"], []. reflexivity.
Qed.

(** A descendant step with an index selector, on a type that resolves,
    returns a value at every depth of the tree. *)
Lemma recurse_descendant_index_total root xpath m i :
  wf_document root ->
  findall_first xpath = Some m ->
  immediate m = false ->
  convert_this_n (this_n m) = Ok (IndexSelector i) ->
  resolves (this_type m) = true ->
  forall depth objects,
    forest_height objects < depth ->
    exists log out, recurse depth root objects xpath = Some (log, Ok out).
Proof.
  intros WF F I C R.
  induction depth as [|depth IH]; intros objects Hh; [lia|].
  rewrite (recurse_step _ _ _ _ _ _ _ _ _
             (z_sort_filter _ _ WF) F C (classify_resolves _ _ _ R)).
  rewrite I.
  destruct (select_index_total i
              (filter (satisfies (this_type m))
                      (filter (contains objects) (iter root))))
    as [w [matches ->]].
  rewrite bind_Some_Ok.
  destruct (recurse_into_total
              (fun kids => recurse depth root kids xpath)
              (filter (contains objects) (iter root)))
    as [log [out Hr]].
  { intros obj Hin _. apply IH.
    apply filter_In in Hin. destruct Hin as [_ Hin].
    apply contains_In in Hin.
    pose proof (forest_height_In _ _ Hin) as Hle.
    rewrite height_children in Hle. lia. }
  rewrite Hr. simpl. eauto.
Qed.

Example out_of_range_on_three_groups :
  find 1 Sample.doc (PlainList [Sample.g1; Sample.g8; Sample.g9]) "/g[5]"
  = Some (["WARN: list index out of range"], Ok []).
Proof. vm_compute. reflexivity. Qed.

(** *** Exceptions *)



(** ** Further properties of the document order *)

Lemma z_iter_loop_Sublist (alist : list Node) :
  forall elements id_list count l,
    z_iter_loop alist id_list count elements = Ok l -> Sublist l elements.
Proof.
  induction elements as [|e rest IH]; intros id_list count l; simpl.
  - intros E. injection E as <-. apply Sublist_nil.
  - destruct (contains alist e).
    + destruct (list_remove e id_list) as [l'|]; [|discriminate].
      destruct (count - 1 =? 0)%Z.
      * intros E. injection E as <-. apply Sublist_take, Sublist_nil.
      * destruct (z_iter_loop alist l' (count - 1) rest) as [l0|] eqn:R;
          simpl; [|discriminate].
        intros E. injection E as <-. apply Sublist_take. eapply IH.
        eassumption.
    + intros E. apply Sublist_skip. eapply IH. eassumption.
Qed.

(** X1.  Whatever the document, a list returned by [z_sort] is in document
    order: it is a subsequence of the traversal from the root, made of
    elements of the input. *)
Theorem z_sort_in_document_order (root : Node) (alist l : list Node) :
  z_sort root alist = Ok l ->
  Sublist l (iter root) /\ incl l alist.
Proof.
  intros H. split.
  - eapply z_iter_loop_Sublist. exact H.
  - intros x Hx. exact (proj2 (z_sort_In _ _ _ H x Hx)).
Qed.

Lemma z_sort_in_document_order_witness :
  z_sort Sample.doc [Sample.g9; Sample.path 99; Sample.c7; Sample.g9]
  = Ok [Sample.c7; Sample.g9]
  /\ Sublist [Sample.c7; Sample.g9] (iter Sample.doc)
  /\ incl [Sample.c7; Sample.g9]
          [Sample.g9; Sample.path 99; Sample.c7; Sample.g9].
Proof.
  assert (Z : z_sort Sample.doc
                [Sample.g9; Sample.path 99; Sample.c7; Sample.g9]
              = Ok [Sample.c7; Sample.g9]) by (vm_compute; reflexivity).
  split; [exact Z|].
  exact (z_sort_in_document_order Sample.doc _ _ Z).
Defined.

Lemma contains_same_elements (l l' : list Node) :
  (forall x, In x l <-> In x l') ->
  forall x, contains l x = contains l' x.
Proof.
  intros H x. apply eq_iff_eq_true. rewrite !contains_In. apply H.
Qed.

Lemma recurse_same_elements root depth (l l' : list Node) xpath :
  wf_document root ->
  (forall x, In x l <-> In x l') ->
  recurse depth root l xpath = recurse depth root l' xpath.
Proof.
  intros WF H. destruct depth as [|depth]; [reflexivity|].
  rewrite !recurse_S, !(z_sort_filter _ _ WF).
  rewrite (filter_ext _ _ (contains_same_elements l l' H)). reflexivity.
Qed.

(** X2.  In a well-formed document the result of a query depends on the
    set of its candidates only, not on their order or on repetitions
    among them, for a plain list as for an [ElementList]. *)
Theorem find_candidates_as_a_set (root : Node) (depth : nat)
    (l l' : list Node) (xpath : string) :
  wf_document root ->
  (forall x, In x l <-> In x l') ->
  find depth root (PlainList l) xpath = find depth root (PlainList l') xpath
  /\ find depth root (ElementList l) xpath
     = find depth root (ElementList l') xpath.
Proof.
  intros WF H. rewrite !find_candidates. split.
  - apply recurse_same_elements; assumption.
  - apply recurse_same_elements; [assumption|].
    intros x. simpl. rewrite !filter_In, H. reflexivity.
Qed.

Lemma find_candidates_as_a_set_witness :
  find 2 Sample.doc (PlainList [Sample.g9; Sample.g1; Sample.g9]) "/g[-1]/*"
  = find 2 Sample.doc (PlainList [Sample.g1; Sample.g9]) "/g[-1]/*"
  /\ find 2 Sample.doc (PlainList [Sample.g1; Sample.g9]) "/g[-1]/*"
     = Some ([], Ok [Sample.path 10]).
Proof.
  split; [|vm_compute; reflexivity].
  assert (H : forall x, In x [Sample.g9; Sample.g1; Sample.g9]
                        <-> In x [Sample.g1; Sample.g9])
    by (intros x; simpl; tauto).
  exact (proj1 (find_candidates_as_a_set Sample.doc 2 _ _ "/g[-1]/*"
                  wf_sample_doc H)).
Defined.

(** ** Further properties of the reading of a step *)

Lemma match_step_not_slash (c : ascii) (r : string) :
  is_slash c = false -> match_step (String c r) = None.
Proof.
  unfold is_slash. intros H. apply Ascii.eqb_neq in H.
  destruct c as [[] [] [] [] [] [] [] []]; try reflexivity.
  exfalso. apply H. reflexivity.
Qed.

Lemma findall_first_cons (c : ascii) (r : string) :
  findall_first (String c r)
  = match match_step (String c r) with
    | Some m => Some m
    | None => findall_first r
    end.
Proof. reflexivity. Qed.

Lemma findall_first_prefix (p s : string) :
  string_all (fun c => negb (is_slash c)) p = true ->
  findall_first (p ++ s)%string = findall_first s.
Proof.
  induction p as [|c p IH]; [reflexivity|].
  cbn [string_all]. intros H. apply andb_true_iff in H.
  destruct H as [Hc Hp]. apply negb_true_iff in Hc.
  change ((String c p ++ s)%string) with (String c (p ++ s)%string).
  rewrite findall_first_cons, (match_step_not_slash c _ Hc). auto.
Qed.

Lemma recurse_prefix root (p xpath : string) :
  string_all (fun c => negb (is_slash c)) p = true ->
  forall depth objects,
    recurse depth root objects (p ++ xpath)%string
    = recurse depth root objects xpath.
Proof.
  intros Hp. induction depth as [|depth IH]; intros objects; [reflexivity|].
  rewrite !recurse_S, (findall_first_prefix p xpath Hp).
  destruct (z_sort root objects) as [objs|e]; [|reflexivity].
  rewrite !bind_lift_Ok.
  destruct (findall_first xpath) as [m|]; [|reflexivity].
  rewrite !bind_lift_Ok. cbv zeta.
  destruct (convert_this_n (this_n m)) as [sel|]; [|reflexivity].
  rewrite !bind_lift_Ok.
  destruct (classify (this_type m) (immediate m) objs) as [[mt tr]|];
    [|reflexivity].
  rewrite !bind_lift_Ok.
  destruct (select_matches sel mt) as [[w [matches|e]]|]; try reflexivity.
  rewrite !bind_Some_Ok.
  destruct (if immediate m
            then if String.eqb (next_xpath m) "" then (matches, tr)
                 else ([], tr ++ matches)
            else (matches, tr)) as [output to_recurse].
  rewrite (recurse_into_ext
             (fun kids =>
                recurse depth root kids
                  (if immediate m then next_xpath m else (p ++ xpath)%string))
             (fun kids =>
                recurse depth root kids
                  (if immediate m then next_xpath m else xpath)));
    [reflexivity|].
  intros kids. destruct (immediate m); [reflexivity | apply IH].
Qed.

(** X3.  The text of an expression before its first slash is not read: an
    expression and the same expression after a text without slash give
    the same run. *)
Theorem text_before_first_slash_ignored (root : Node) (depth : nat)
    (obj : QueryObject) (p xpath : string) :
  string_all (fun c => negb (is_slash c)) p = true ->
  find depth root obj (p ++ xpath)%string = find depth root obj xpath.
Proof.
  intros Hp. rewrite !find_candidates. apply recurse_prefix. assumption.
Qed.

Lemma text_before_first_slash_ignored_witness :
  find 4 Sample.doc (Element Sample.doc) "svg:g[0]//p"
  = find 4 Sample.doc (Element Sample.doc) "//p"
  /\ find 4 Sample.doc (Element Sample.doc) "//p"
     = Some ([], Ok [Sample.c7; Sample.path 3; Sample.path 6;
                     Sample.path 10]).
Proof.
  split; [|vm_compute; reflexivity].
  exact (text_before_first_slash_ignored Sample.doc 4 (Element Sample.doc)
           "svg:g[0]" "//p" eq_refl).
Defined.

Lemma match_type_None (s : string) :
  match_type s = None <-> starts_type s = false.
Proof.
  unfold match_type, starts_type. destruct s as [|c r]; simpl.
  - tauto.
  - destruct (is_word c) eqn:W; simpl.
    + destruct (span is_word r) as [a b]. split; discriminate.
    + destruct (Ascii.eqb c "*"%char) eqn:E.
      * apply Ascii.eqb_eq in E. subst c. split; discriminate.
      * apply Ascii.eqb_neq in E.
        destruct c as [[] [] [] [] [] [] [] []]; try tauto;
          exfalso; apply E; reflexivity.
Qed.

Lemma match_after_axis_None (ax s : string) :
  match_after_axis ax s = None <-> starts_type s = false.
Proof.
  rewrite <- match_type_None. unfold match_after_axis.
  destruct (match_type s) as [[ty r2]|]; [|tauto].
  destruct (match match_index r2 with
            | Some p => p
            | None => (EmptyString, r2)
            end) as [n r3].
  destruct (span _ r3) as [nx rest]. split; discriminate.
Qed.

Lemma match_step_slash_None (r : string) :
  match_step (String "/"%char r) = None
  <-> starts_type r = false
      /\ (forall r', r = String "/"%char r' -> starts_type r' = false).
Proof.
  cbn [match_step]. destruct r as [|c r'].
  - rewrite match_after_axis_None. split; [|tauto].
    intros H. split; [assumption | discriminate].
  - destruct (Ascii.eqb c "/"%char) eqn:E.
    + apply Ascii.eqb_eq in E. subst c.
      destruct (match_after_axis "//" r') as [m|] eqn:Two.
      * split; [discriminate|]. intros [_ H].
        specialize (H r' eq_refl).
        apply (proj2 (match_after_axis_None "//" r')) in H.
        rewrite H in Two. discriminate.
      * apply match_after_axis_None in Two.
        rewrite match_after_axis_None. split; [|tauto].
        intros H. split; [assumption|].
        intros r0 E0. injection E0 as <-. assumption.
    + assert (Hne : c <> "/"%char) by (apply Ascii.eqb_neq; assumption).
      assert (M : match_step (String "/"%char (String c r'))
                  = match_after_axis "/" (String c r')).
      { destruct c as [[] [] [] [] [] [] [] []]; try reflexivity.
        exfalso. apply Hne. reflexivity. }
      cbn [match_step] in M. rewrite M, match_after_axis_None.
      split; [|tauto]. intros H. split; [assumption|].
      intros r0 E0. injection E0 as E1 _. congruence.
Qed.

Lemma findall_first_None (s : string) :
  findall_first s = None <-> has_step s = false.
Proof.
  induction s as [|c r IH]; [simpl; tauto|].
  rewrite findall_first_cons. cbn [has_step]. destruct (is_slash c) eqn:Sl.
  - unfold is_slash in Sl. apply Ascii.eqb_eq in Sl. subst c. simpl andb.
    destruct (match_step (String "/"%char r)) as [m|] eqn:M.
    + split; [discriminate|]. intros H. apply orb_false_iff in H.
      destruct H as [H1 H2].
      assert (N : match_step (String "/"%char r) = None).
      { apply match_step_slash_None. split; [assumption|].
        intros r' ->. cbn [has_step] in H2. apply orb_false_iff in H2.
        destruct H2 as [H2 _]. exact H2. }
      congruence.
    + apply match_step_slash_None in M. destruct M as [M _].
      rewrite M, IH. simpl. tauto.
  - rewrite (match_step_not_slash c r Sl), IH. simpl. tauto.
Qed.

(** ** What a query records and raises *)

Lemma count_colons_app (a b : string) :
  count_colons (a ++ b)%string = count_colons a + count_colons b.
Proof.
  induction a as [|c a IH]; simpl; [reflexivity|]. rewrite IH. lia.
Qed.

Lemma span_digits_no_colon s ds r :
  span is_digit s = (ds, r) -> count_colons ds = 0.
Proof.
  revert ds r. induction s as [|c s IH]; simpl; intros ds r.
  - intros E. injection E as <- <-. reflexivity.
  - destruct (is_digit c) eqn:D.
    + destruct (span is_digit s) as [a b]. intros E. injection E as <- <-.
      simpl. rewrite (IH a b eq_refl).
      destruct (Ascii.eqb c ":"%char) eqn:E; [|reflexivity].
      apply Ascii.eqb_eq in E. subst c. discriminate.
    + intros E. injection E as <- <-. reflexivity.
Qed.

Lemma match_minus_no_colon s sg r :
  match_minus s = (sg, r) -> count_colons sg = 0.
Proof.
  unfold match_minus. destruct s as [|c s].
  - intros E. injection E as <- <-. reflexivity.
  - destruct c as [[] [] [] [] [] [] [] []];
      intros E; injection E as <- <-; reflexivity.
Qed.

Lemma match_bound_one_colon s b r :
  match_bound s = Some (b, r) -> count_colons b = 1.
Proof.
  unfold match_bound. destruct s as [|c s]; [discriminate|].
  destruct c as [[] [] [] [] [] [] [] []]; try discriminate.
  destruct (match_minus s) as [sg r1] eqn:M.
  destruct (span is_digit r1) as [ds r2] eqn:Sp.
  apply match_minus_no_colon in M. apply span_digits_no_colon in Sp.
  intros E. injection E as <- <-. simpl.
  rewrite count_colons_app, M, Sp. reflexivity.
Qed.

Lemma match_index_colons s n r :
  match_index s = Some (n, r) -> count_colons n <= 2.
Proof.
  unfold match_index. destruct s as [|c s]; [discriminate|].
  destruct c as [[] [] [] [] [] [] [] []]; try discriminate.
  destruct (match_minus s) as [sg s2] eqn:M.
  destruct (span is_digit s2) as [ds s3] eqn:Sp.
  apply match_minus_no_colon in M. apply span_digits_no_colon in Sp.
  destruct ds as [|d ds]; [discriminate|].
  remember (String d ds) as ds1 eqn:Eds. clear Eds.
  assert (B : forall t p, (match match_bound t with
                           | Some p => p
                           | None => (EmptyString, t)
                           end) = p ->
                          count_colons (fst p) <= 1).
  { intros t [b r']. destruct (match_bound t) as [[b0 r0]|] eqn:Mb.
    - intros E. injection E as <- <-. simpl.
      rewrite (match_bound_one_colon _ _ _ Mb). lia.
    - intros E. injection E as <- <-. simpl. lia. }
  destruct (match match_bound s3 with
            | Some p => p
            | None => (EmptyString, s3)
            end) as [b1 s4] eqn:B1.
  apply B in B1. simpl in B1.
  destruct (match b1 with
            | EmptyString => (EmptyString, s4)
            | String _ _ =>
                match match_bound s4 with
                | Some p => p
                | None => (EmptyString, s4)
                end
            end) as [b2 s5] eqn:B2.
  assert (count_colons b2 <= 1).
  { destruct b1.
    - injection B2 as <- <-. simpl. lia.
    - apply B in B2. assumption. }
  destruct s5 as [|c5 s5]; [discriminate|].
  destruct c5 as [[] [] [] [] [] [] [] []]; try discriminate.
  intros E. injection E as <- <-.
  rewrite !count_colons_app, M, Sp. lia.
Qed.

Lemma match_after_axis_colons ax s m :
  match_after_axis ax s = Some m -> count_colons (this_n m) <= 2.
Proof.
  unfold match_after_axis.
  destruct (match_type s) as [[ty r2]|]; [|discriminate].
  destruct (match_index r2) as [[n0 r0]|] eqn:Mi.
  - destruct (span _ r0) as [nx rest]. intros E. injection E as <-. simpl.
    eapply match_index_colons. eassumption.
  - destruct (span _ r2) as [nx rest]. intros E. injection E as <-. simpl.
    lia.
Qed.

Lemma match_step_colons s m :
  match_step s = Some m -> count_colons (this_n m) <= 2.
Proof.
  unfold match_step. destruct s as [|c r]; [discriminate|].
  destruct (Ascii.eqb c "/"%char) eqn:E;
    [apply Ascii.eqb_eq in E; subst c
    | destruct c as [[] [] [] [] [] [] [] []]; discriminate].
  destruct r as [|c' r']; [apply match_after_axis_colons|].
  destruct (Ascii.eqb c' "/"%char) eqn:E';
    [apply Ascii.eqb_eq in E'; subst c'
    | destruct c' as [[] [] [] [] [] [] [] []];
      try apply match_after_axis_colons; discriminate].
  destruct (match_after_axis "//" r') as [m'|] eqn:Two;
    [|apply match_after_axis_colons].
  intros H. injection H as <-. eapply match_after_axis_colons. eassumption.
Qed.

Lemma findall_first_colons s m :
  findall_first s = Some m -> count_colons (this_n m) <= 2.
Proof.
  induction s as [|c s IH]; [discriminate|].
  rewrite findall_first_cons.
  destruct (match_step (String c s)) as [m'|] eqn:M; [|exact IH].
  intros E. injection E as <-. eapply match_step_colons. eassumption.
Qed.

Lemma split_colon_length (s : string) :
  List.length (split_colon s) = S (count_colons s).
Proof.
  induction s as [|c s IH]; [reflexivity|]. simpl.
  destruct (Ascii.eqb c ":"%char); simpl; [rewrite IH; reflexivity|].
  destruct (split_colon s); simpl in *; lia.
Qed.

Lemma has_colon_count (s : string) :
  has_colon s = true -> 1 <= count_colons s.
Proof.
  induction s as [|c s IH]; simpl; [discriminate|].
  destruct (Ascii.eqb c ":"%char); simpl; [lia | auto with arith].
Qed.

Lemma convert_parts_length (parts : list string) l :
  convert_parts parts = Ok l -> List.length l = List.length parts.
Proof.
  revert l. induction parts as [|n rest IH]; simpl; intros l.
  - intros E. injection E as <-. reflexivity.
  - destruct (if String.eqb n "" then Ok None
              else match py_int n with
                   | Some z => Ok (Some z)
                   | None => Raise ValueError
                   end) as [v|]; simpl; [|discriminate].
    destruct (convert_parts rest) as [vs|]; simpl; [|discriminate].
    intros E. injection E as <-. simpl. rewrite (IH vs eq_refl). reflexivity.
Qed.

Lemma convert_parts_raises (parts : list string) e :
  convert_parts parts = Raise e -> e = ValueError.
Proof.
  induction parts as [|n rest IH]; simpl; [discriminate|].
  destruct (String.eqb n ""); simpl.
  - destruct (convert_parts rest) as [vs|e']; simpl; [discriminate|].
    intros E. injection E as <-. auto.
  - destruct (py_int n); simpl; [|congruence].
    destruct (convert_parts rest) as [vs|e']; simpl; [discriminate|].
    intros E. injection E as <-. auto.
Qed.

(** The list built from the brackets of a step has two or three items. *)
Lemma slice_parts_length xpath m parts :
  findall_first xpath = Some m ->
  convert_this_n (this_n m) = Ok (SliceSelector parts) ->
  List.length parts = 2 \/ List.length parts = 3.
Proof.
  intros F. apply findall_first_colons in F. unfold convert_this_n.
  destruct (String.eqb (this_n m) ""); [discriminate|].
  destruct (has_colon (this_n m)) eqn:H.
  - apply has_colon_count in H.
    destruct (convert_parts (split_colon (this_n m))) as [l|] eqn:C;
      simpl; [|discriminate].
    intros E. injection E as <-.
    apply convert_parts_length in C. rewrite split_colon_length in C. lia.
  - destruct (py_int (this_n m)); discriminate.
Qed.

Lemma convert_this_n_raises s e :
  convert_this_n s = Raise e -> e = ValueError.
Proof.
  unfold convert_this_n. destruct (String.eqb s ""); [discriminate|].
  destruct (has_colon s).
  - destruct (convert_parts (split_colon s)) as [l|e'] eqn:C; simpl;
      [discriminate|].
    intros E. injection E as <-. eapply convert_parts_raises. eassumption.
  - destruct (py_int s); [discriminate | congruence].
Qed.

Lemma z_iter_loop_raises (alist : list Node) :
  forall elements id_list count e,
    z_iter_loop alist id_list count elements = Raise e -> e = ValueError.
Proof.
  induction elements as [|x rest IH]; intros id_list count e; simpl;
    [discriminate|].
  destruct (contains alist x); [|apply IH].
  destruct (list_remove x id_list) as [l'|]; [|congruence].
  destruct (count - 1 =? 0)%Z; [discriminate|].
  destruct (z_iter_loop alist l' (count - 1) rest) as [l0|e'] eqn:R; simpl;
    [discriminate|].
  intros E. injection E as <-. eapply IH. eassumption.
Qed.

Lemma classify_raises ty imm objs e :
  classify ty imm objs = Raise e -> e = KeyError ty.
Proof.
  induction objs as [|o objs IH]; simpl; [discriminate|].
  unfold match_type_of.
  destruct (String.eqb ty "*"); simpl.
  - destruct (classify ty imm objs) as [[m r]|e']; simpl; [discriminate|].
    intros E. injection E as <-. auto.
  - destruct (tag_dict ty); simpl; [|congruence].
    destruct (classify ty imm objs) as [[m r]|e']; simpl; [discriminate|].
    intros E. injection E as <-. auto.
Qed.

Lemma py_slice_raises {A} (l : list A) a b c e :
  py_slice l a b c = Raise e -> e = ValueError.
Proof.
  unfold py_slice. destruct (_ =? 0)%Z; [congruence | discriminate].
Qed.

Lemma clean_bind {A B} (m : Run A) (k : A -> Run B) :
  clean m -> (forall a, clean (k a)) -> clean (bind m k).
Proof.
  unfold clean, bind. destruct m as [[w [a|e]]|]; try tauto.
  intros [Hw _] Hk. specialize (Hk a).
  destruct (k a) as [[w' r]|]; [|exact I].
  destruct Hk as [Hw' Hr]. split; [|assumption].
  apply Forall_app. split; assumption.
Qed.

Lemma clean_ret {A} (a : A) : clean (ret a).
Proof. simpl. auto. Qed.

Lemma clean_lift {A} (r : Result A) :
  (forall e, r = Raise e -> raisable e) -> clean (lift r).
Proof.
  intros H. simpl. split; [constructor|]. destruct r; auto.
Qed.

Lemma clean_select_matches sel mt :
  (forall parts, sel = SliceSelector parts ->
                 List.length parts = 2 \/ List.length parts = 3) ->
  clean (select_matches sel mt).
Proof.
  intros H. destruct sel as [|i|parts]; simpl.
  - auto.
  - destruct (py_index mt i); simpl; auto.
  - destruct (H parts eq_refl) as [L|L];
      destruct parts as [|a [|b [|c [|d parts]]]]; try discriminate;
      simpl; (destruct b as [z|]; [|simpl; auto]);
      apply clean_lift; intros e He; apply py_slice_raises in He; subst e;
      exact I.
Qed.

Lemma clean_recurse_into call to_recurse :
  (forall kids, clean (call kids)) -> clean (recurse_into call to_recurse).
Proof.
  intros H. induction to_recurse as [|o l IH]; simpl; [auto|].
  destruct (is_iterable o); [|assumption].
  apply clean_bind; [apply H|]. intros out.
  apply clean_bind; [assumption|]. intros outs. apply clean_ret.
Qed.

Lemma clean_recurse root :
  forall depth objects xpath, clean (recurse depth root objects xpath).
Proof.
  induction depth as [|depth IH]; intros objects xpath; [exact I|].
  rewrite recurse_S.
  destruct (z_sort root objects) as [objs|e] eqn:Hz.
  2:{ apply z_iter_loop_raises in Hz. subst e. simpl. auto. }
  rewrite bind_lift_Ok.
  destruct (findall_first xpath) as [m|] eqn:F; [|simpl; auto].
  rewrite bind_lift_Ok. cbv zeta.
  destruct (convert_this_n (this_n m)) as [sel|e] eqn:C.
  2:{ apply convert_this_n_raises in C. subst e. simpl. auto. }
  rewrite bind_lift_Ok.
  destruct (classify (this_type m) (immediate m) objs) as [[mt tr]|e] eqn:K.
  2:{ apply classify_raises in K. subst e. simpl. auto. }
  rewrite bind_lift_Ok.
  apply clean_bind.
  { apply clean_select_matches. intros parts ->.
    eapply slice_parts_length; eassumption. }
  intros matches.
  destruct (if immediate m
            then if String.eqb (next_xpath m) "" then (matches, tr)
                 else ([], tr ++ matches)
            else (matches, tr)) as [output to_recurse].
  apply clean_bind; [|intros outs; apply clean_ret].
  apply clean_recurse_into. intros kids. apply IH.
Qed.

(** X5.  With the default [tb], the only message a query records is the
    warning of an index out of range, as many times as an index was out
    of range. *)
Theorem find_records_only_warnings (root : Node) (depth : nat)
    (obj : QueryObject) (xpath : string) (w : list string)
    (res : Result (list Node)) :
  find depth root obj xpath = Some (w, res) ->
  Forall (fun text => text = "WARN: list index out of range") w.
Proof.
  rewrite find_candidates. intros H.
  pose proof (clean_recurse root depth (candidates obj) xpath) as C.
  rewrite H in C. exact (proj1 C).
Qed.

Lemma find_records_only_warnings_witness :
  find 4 Sample.doc (Element Sample.doc) "//p[1]"
  = Some (["WARN: list index out of range"; "WARN: list index out of range";
           "WARN: list index out of range"; "WARN: list index out of range";
           "WARN: list index out of range"], Ok [])
  /\ Forall (fun text => text = "WARN: list index out of range")
            ["WARN: list index out of range"; "WARN: list index out of range";
             "WARN: list index out of range"; "WARN: list index out of range";
             "WARN: list index out of range"].
Proof.
  assert (F : find 4 Sample.doc (Element Sample.doc) "//p[1]"
              = Some (["WARN: list index out of range";
                       "WARN: list index out of range";
                       "WARN: list index out of range";
                       "WARN: list index out of range";
                       "WARN: list index out of range"], Ok []))
    by (vm_compute; reflexivity).
  split; [exact F|].
  exact (find_records_only_warnings Sample.doc 4 (Element Sample.doc)
           "//p[1]" _ _ F).
Defined.

(** X6.  The exceptions that a query raises are [IndexError] (no step can
    be read), [ValueError] (a lone minus sign as a bound, a zero step; an
    element met twice in the traversal of an ill-formed document),
    [KeyError] and the [AssertionError] of the slice without stop.  It
    never raises [TypeError]: the list made from the brackets of a step
    has two or three items, which is what [slice] accepts. *)
Theorem find_raises_only (root : Node) (depth : nat) (obj : QueryObject)
    (xpath : string) (w : list string) (e : Exception) :
  find depth root obj xpath = Some (w, Raise e) ->
  e <> TypeError
  /\ (forall text, e = AssertionError text ->
                   text = "end must be specified (for now...)").
Proof.
  rewrite find_candidates. intros H.
  pose proof (clean_recurse root depth (candidates obj) xpath) as C.
  rewrite H in C. destruct C as [_ C]. split.
  - intros ->. exact C.
  - intros text ->. exact C.
Qed.

Lemma find_raises_only_witness :
  find 2 Sample.doc (Element Sample.doc) "/g/*[0:3:0]"
  = Some ([], Raise ValueError)
  /\ ValueError <> TypeError.
Proof.
  assert (F : find 2 Sample.doc (Element Sample.doc) "/g/*[0:3:0]"
              = Some ([], Raise ValueError)) by (vm_compute; reflexivity).
  split; [exact F|].
  exact (proj1 (find_raises_only Sample.doc 2 (Element Sample.doc)
                  "/g/*[0:3:0]" _ _ F)).
Defined.

(** ** Selectors *)

Lemma firstn_S_nth {A} (m : list A) (k : nat) (x : A) :
  nth_error m k = Some x -> firstn (S k) m = firstn k m ++ [x].
Proof.
  revert k. induction m as [|a m IH]; intros [|k]; simpl; try discriminate.
  - intros E. injection E as <-. reflexivity.
  - intros H. rewrite <- (IH k H). reflexivity.
Qed.

Lemma collect_firstn_skipn {A} (l : list A) (lo : nat) :
  forall k, lo + k <= List.length l ->
    flat_map (fun i => match nth_error l (lo + i) with
                       | Some x => [x]
                       | None => []
                       end) (seq 0 k)
    = firstn k (skipn lo l).
Proof.
  induction k as [|k IH]; intros H; [reflexivity|].
  rewrite seq_S, flat_map_app, IH by lia. simpl.
  destruct (nth_error l (lo + k)) as [x|] eqn:N.
  - rewrite app_nil_r. symmetry. apply firstn_S_nth.
    rewrite nth_error_skipn. assumption.
  - apply nth_error_None in N. lia.
Qed.

Lemma firstn_skipn_clamp {A} (l : list A) (a b : nat) :
  firstn (Nat.min b (List.length l) - Nat.min a (List.length l))
         (skipn (Nat.min a (List.length l)) l)
  = firstn (b - a) (skipn a l).
Proof.
  destruct (Nat.le_gt_cases (List.length l) a) as [Ha|Ha].
  - rewrite (Nat.min_r a) by assumption.
    rewrite !skipn_all2 by lia. rewrite !firstn_nil. reflexivity.
  - rewrite (Nat.min_l a) by lia.
    destruct (Nat.le_gt_cases (List.length l) b) as [Hb|Hb].
    + rewrite (Nat.min_r b) by assumption.
      rewrite !firstn_all2; [reflexivity | |]; rewrite length_skipn; lia.
    + rewrite Nat.min_l by lia. reflexivity.
Qed.

(** A slice with two bounds that are not negative. *)
Lemma py_slice_nat {A} (l : list A) (a b : nat) :
  py_slice l (Some (Z.of_nat a)) (Some (Z.of_nat b)) None
  = Ok (firstn (b - a) (skipn a l)).
Proof.
  unfold py_slice. change (1 =? 0)%Z with false. cbv iota.
  set (n := List.length l).
  assert (Adj : forall c, adjust_bound (Z.of_nat n) 1 (Z.of_nat c)
                          = Z.of_nat (Nat.min c n)).
  { intros c. unfold adjust_bound.
    destruct (Z.of_nat c <? 0)%Z eqn:E1; [apply Z.ltb_lt in E1; lia|].
    destruct (Z.of_nat n <=? Z.of_nat c)%Z eqn:E2.
    - apply Z.leb_le in E2. simpl. rewrite Nat.min_r by lia. reflexivity.
    - apply Z.leb_gt in E2. rewrite Nat.min_l by lia. reflexivity. }
  rewrite !Adj. change (1 <? 0)%Z with false. cbv iota.
  f_equal. rewrite <- firstn_skipn_clamp. fold n.
  assert (Len : Z.to_nat
                  (if (Z.of_nat (Nat.min a n) <? Z.of_nat (Nat.min b n))%Z
                   then (Z.of_nat (Nat.min b n) - Z.of_nat (Nat.min a n) - 1)
                        / 1 + 1
                   else 0)%Z
                = Nat.min b n - Nat.min a n).
  { destruct (_ <? _)%Z eqn:E.
    - apply Z.ltb_lt in E. rewrite Z.div_1_r. lia.
    - apply Z.ltb_ge in E. lia. }
  rewrite Len.
  rewrite <- (collect_firstn_skipn l (Nat.min a n)
                (Nat.min b n - Nat.min a n)) by (unfold n; lia).
  apply flat_map_ext. intros k.
  replace (Z.to_nat (Z.of_nat (Nat.min a n) + Z.of_nat k * 1))
    with (Nat.min a n + k) by lia.
  reflexivity.
Qed.

(** An index in range. *)
Lemma py_index_in_range {A} (l : list A) (i : Z) :
  (- Z.of_nat (List.length l) <= i < Z.of_nat (List.length l))%Z ->
  exists x,
    py_index l i = Some x
    /\ nth_error l (Z.to_nat (if (i <? 0)%Z
                              then Z.of_nat (List.length l) + i else i))
       = Some x.
Proof.
  intros H. unfold py_index.
  set (j := (if (i <? 0)%Z then i + Z.of_nat (List.length l) else i)%Z).
  assert (Hj : (0 <= j < Z.of_nat (List.length l))%Z).
  { unfold j. destruct (i <? 0)%Z eqn:E;
      [apply Z.ltb_lt in E | apply Z.ltb_ge in E]; lia. }
  replace ((j <? 0)%Z || (Z.of_nat (List.length l) <=? j)%Z) with false.
  2:{ symmetry. apply orb_false_iff. split;
        [apply Z.ltb_ge | apply Z.leb_gt]; lia. }
  destruct (nth_error l (Z.to_nat j)) as [x|] eqn:N.
  - exists x. split; [reflexivity|]. rewrite <- N. f_equal. f_equal.
    unfold j. destruct (i <? 0)%Z; lia.
  - apply nth_error_None in N. lia.
Qed.

(** X7.  On a last step with the immediate axis and a code of [tag_dict],
    in a well-formed document: a slice [a:b] whose bounds are not negative
    returns the candidates of that type from position [a] up to, and
    without, position [b], in document order, without message; an index
    in range returns the candidate of that type at that position, counted
    from the end when it is negative. *)
Theorem last_step_selects_by_position
    (root : Node) (depth : nat) (obj : QueryObject) (xpath : string)
    (m : StepMatch) (name : string) :
  wf_document root ->
  findall_first xpath = Some m ->
  immediate m = true -> next_xpath m = "" ->
  String.eqb (this_type m) "*" = false ->
  tag_dict (this_type m) = Some name ->
  let mt := filter (fun o => String.eqb (type_name o) name)
                   (filter (contains (candidates obj)) (iter root)) in
  (forall a b : nat,
      convert_this_n (this_n m)
      = Ok (SliceSelector [Some (Z.of_nat a); Some (Z.of_nat b)]) ->
      find (S depth) root obj xpath
      = Some ([], Ok (firstn (b - a) (skipn a mt))))
  /\ (forall i : Z,
        convert_this_n (this_n m) = Ok (IndexSelector i) ->
        (- Z.of_nat (List.length mt) <= i < Z.of_nat (List.length mt))%Z ->
        exists x,
          nth_error mt (Z.to_nat (if (i <? 0)%Z
                                  then Z.of_nat (List.length mt) + i else i))
          = Some x
          /\ find (S depth) root obj xpath = Some ([], Ok [x])).
Proof.
  intros WF F I X St T mt. rewrite find_candidates. split.
  - intros a b C.
    rewrite (recurse_immediate_last root xpath m name _ F I X St T C WF).
    fold mt. unfold select_matches. cbn [nth_error].
    rewrite py_slice_nat. reflexivity.
  - intros i C Hi.
    rewrite (recurse_immediate_last root xpath m name _ F I X St T C WF).
    fold mt. destruct (py_index_in_range mt i Hi) as [x [P N]].
    exists x. split; [assumption|].
    unfold select_matches. rewrite P. reflexivity.
Qed.

Lemma last_step_selects_by_position_witness :
  find 1 Sample.doc (Element Sample.doc) "/g[1:9]"
  = Some ([], Ok [Sample.g8; Sample.g9])
  /\ exists x,
       nth_error [Sample.g1; Sample.g8; Sample.g9] 1 = Some x
       /\ find 1 Sample.doc (Element Sample.doc) "/g[-2]" = Some ([], Ok [x]).
Proof.
  assert (F1 : findall_first "/g[1:9]" = Some (mkStepMatch "/" "g" "1:9" ""))
    by (vm_compute; reflexivity).
  assert (F2 : findall_first "/g[-2]" = Some (mkStepMatch "/" "g" "-2" ""))
    by (vm_compute; reflexivity).
  split.
  - exact (proj1 (last_step_selects_by_position
                    Sample.doc 0 (Element Sample.doc) "/g[1:9]" _ "Group"
                    wf_sample_doc F1 eq_refl eq_refl eq_refl eq_refl)
                 1 9 eq_refl).
  - apply (proj2 (last_step_selects_by_position
                    Sample.doc 0 (Element Sample.doc) "/g[-2]" _ "Group"
                    wf_sample_doc F2 eq_refl eq_refl eq_refl eq_refl)
                 (-2)%Z eq_refl).
    vm_compute. split; [discriminate | reflexivity].
Defined.

(** ** Candidates inside one another *)

Lemma Sublist_single (x : Node) (t : list Node) : In x t -> Sublist [x] t.
Proof.
  induction t as [|y t IH]; simpl; [tauto|].
  intros [->|H]; [apply Sublist_take, Sublist_nil | apply Sublist_skip; auto].
Qed.

Lemma In_iter_self (n : Node) : In n (iter n).
Proof. rewrite iter_head. left. reflexivity. Qed.

(** X8.  A query can return a node twice: when a container of a
    well-formed document and one of its children are both candidates of
    the wildcard descendant query, in any order, the child is returned as
    a candidate and again as a child of the container. *)
Theorem nested_candidates_returned_twice
    (root g c : Node) (depth : nat) :
  wf_document root ->
  In g (iter root) -> is_iterable g = true -> In c (children g) ->
  height g < depth ->
  exists rest,
    find depth root (PlainList [c; g]) "//*" = Some ([], Ok (g :: c :: rest))
    /\ In c rest.
Proof.
  intros WF Hg Ig Hc Hd.
  assert (Sub : Sublist [g; c] (iter root)).
  { eapply Sublist_trans; [|apply Sublist_iter_In; exact Hg].
    rewrite iter_head. apply Sublist_take. apply Sublist_single.
    apply in_flat_map. exists c. split; [assumption | apply In_iter_self]. }
  assert (Hh : forest_height [g; c] < depth).
  { pose proof (forest_height_In _ _ Hc) as L.
    pose proof (height_children g) as Eg.
    unfold forest_height at 1. cbn [map list_max fold_right]. lia. }
  exists (below g ++ below c ++ []). split.
  - rewrite find_candidates. cbn [candidates].
    rewrite (recurse_same_elements root depth [c; g] [g; c] "//*" WF)
      by (intros x; simpl; tauto).
    apply (recurse_wildcard_descendant root "//*"
             (mkStepMatch "//" "*" "" "")); try reflexivity; assumption.
  - apply in_or_app. left. rewrite below_unfold, Ig. unfold level_first.
    apply in_or_app. left. assumption.
Qed.

Lemma nested_candidates_returned_twice_witness :
  exists rest,
    find 4 Sample.doc (PlainList [Sample.path 10; Sample.g9]) "//*"
    = Some ([], Ok (Sample.g9 :: Sample.path 10 :: rest))
    /\ In (Sample.path 10) rest.
Proof.
  apply (nested_candidates_returned_twice Sample.doc Sample.g9
           (Sample.path 10) 4 wf_sample_doc).
  - vm_compute. tauto.
  - reflexivity.
  - left. reflexivity.
  - vm_compute. lia.
Defined.

(** ** Two steps *)

Lemma recurse_last_step root xpath m :
  findall_first xpath = Some m ->
  immediate m = true -> next_xpath m = "" -> this_n m = "" ->
  resolves (this_type m) = true ->
  wf_document root ->
  forall depth objects,
    recurse (S depth) root objects xpath
    = Some ([], Ok (filter (satisfies (this_type m))
                           (filter (contains objects) (iter root)))).
Proof.
  intros F I X N R WF depth objects.
  assert (C : convert_this_n (this_n m) = Ok NoSelector)
    by (rewrite N; reflexivity).
  rewrite (recurse_step _ _ _ _ _ _ _ _ _
             (z_sort_filter _ _ WF) F C (classify_resolves _ _ _ R)).
  rewrite I, X. simpl. rewrite app_nil_r. reflexivity.
Qed.

Lemma recurse_into_flat_map call (f : Node -> list Node) to_recurse :
  (forall o, In o to_recurse -> is_iterable o = true ->
             call (children o) = Some ([], Ok (f o))) ->
  recurse_into call to_recurse
  = Some ([], Ok (flat_map (fun o => if is_iterable o then f o else [])
                           to_recurse)).
Proof.
  induction to_recurse as [|o l IH]; intros H; [reflexivity|].
  assert (IH' := IH (fun x Hx => H x (or_intror Hx))).
  simpl. destruct (is_iterable o) eqn:I.
  - rewrite (H o (or_introl eq_refl) I), IH'. reflexivity.
  - assumption.
Qed.

(** X9.  Two steps with the immediate axis and no selector, on types that
    resolve: in a well-formed document the query returns, for each
    candidate of the first type in document order, the children of the
    second type if the candidate is a container, and nothing otherwise. *)
Theorem two_immediate_steps
    (root : Node) (depth : nat) (obj : QueryObject) (x1 x2 : string)
    (m1 m2 : StepMatch) :
  wf_document root ->
  findall_first x1 = Some m1 -> immediate m1 = true -> this_n m1 = "" ->
  resolves (this_type m1) = true -> next_xpath m1 = x2 ->
  findall_first x2 = Some m2 -> immediate m2 = true -> this_n m2 = "" ->
  resolves (this_type m2) = true -> next_xpath m2 = "" ->
  find (S (S depth)) root obj x1
  = Some ([], Ok (flat_map
                    (fun o => if is_iterable o
                              then filter (satisfies (this_type m2))
                                          (children o)
                              else [])
                    (filter (satisfies (this_type m1))
                            (filter (contains (candidates obj))
                                    (iter root))))).
Proof.
  intros WF F1 I1 N1 R1 X1 F2 I2 N2 R2 X2. rewrite find_candidates.
  assert (C : convert_this_n (this_n m1) = Ok NoSelector)
    by (rewrite N1; reflexivity).
  rewrite (recurse_step _ _ _ _ _ _ _ _ _
             (z_sort_filter _ _ WF) F1 C (classify_resolves _ _ _ R1)).
  rewrite I1, X1.
  assert (Ne : String.eqb x2 "" = false)
    by (destruct x2; [discriminate | reflexivity]).
  rewrite Ne. simpl select_matches. rewrite bind_ret.
  rewrite (recurse_into_flat_map _
             (fun o => filter (satisfies (this_type m2)) (children o))).
  - reflexivity.
  - intros o Ho _.
    rewrite (recurse_last_step root x2 m2 F2 I2 X2 N2 R2 WF).
    do 4 f_equal. apply filter_contains_Sublist; [|exact WF].
    apply Sublist_children_iter.
    apply filter_In in Ho. destruct Ho as [Ho _].
    apply filter_In in Ho. tauto.
Qed.

Lemma two_immediate_steps_witness :
  find 2 Sample.doc (Element Sample.doc) "/g/p"
  = Some ([], Ok [Sample.path 3; Sample.path 10]).
Proof.
  assert (F1 : findall_first "/g/p" = Some (mkStepMatch "/" "g" "" "/p"))
    by (vm_compute; reflexivity).
  assert (F2 : findall_first "/p" = Some (mkStepMatch "/" "p" "" ""))
    by (vm_compute; reflexivity).
  exact (two_immediate_steps Sample.doc 0 (Element Sample.doc) "/g/p" "/p"
           _ _ wf_sample_doc F1 eq_refl eq_refl eq_refl eq_refl
           F2 eq_refl eq_refl eq_refl eq_refl).
Defined.

(** ** Reading back a step *)

Lemma append_empty_r (s : string) : (s ++ "")%string = s.
Proof. induction s as [|c s IH]; simpl; [reflexivity | rewrite IH; reflexivity]. Qed.

Lemma span_app (p : ascii -> bool) (a b : string) :
  string_all p a = true ->
  match b with String c _ => p c = false | EmptyString => True end ->
  span p (a ++ b)%string = (a, b).
Proof.
  intros Ha Hb. induction a as [|c a IH]; simpl.
  - destruct b as [|c b]; [reflexivity|]. simpl. rewrite Hb. reflexivity.
  - simpl in Ha. apply andb_true_iff in Ha. destruct Ha as [Hc Ha].
    rewrite Hc, (IH Ha). reflexivity.
Qed.

Lemma span_all (p : ascii -> bool) (s : string) :
  string_all p s = true -> span p s = (s, EmptyString).
Proof.
  intros H. rewrite <- (append_empty_r s) at 1.
  apply span_app; [assumption | exact I].
Qed.

Lemma match_type_read (ty b : string) :
  ty = "*" \/ (ty <> "" /\ string_all is_word ty = true
               /\ match b with
                  | String c _ => is_word c = false
                  | EmptyString => True
                  end) ->
  match_type (ty ++ b)%string = Some (ty, b).
Proof.
  intros [->|[Hne [Hw Hb]]]; [reflexivity|].
  unfold match_type. rewrite (span_app is_word ty b Hw Hb).
  destruct ty; [congruence | reflexivity].
Qed.

Lemma match_minus_digit (c : ascii) (r : string) :
  is_digit c = true ->
  match_minus (String c r) = (EmptyString, String c r).
Proof.
  destruct c as [[] [] [] [] [] [] [] []]; try reflexivity; discriminate.
Qed.

Lemma match_index_read (neg : bool) (ds rest : string) :
  ds <> "" -> string_all is_digit ds = true ->
  match_index ("[" ++ (if neg then "-" else "") ++ ds ++ "]" ++ rest)%string
  = Some (((if neg then "-" else "") ++ ds)%string, rest).
Proof.
  intros Hne Hd.
  assert (Sp : span is_digit (ds ++ "]" ++ rest)%string
               = (ds, ("]" ++ rest)%string))
    by (apply span_app; [assumption | reflexivity]).
  assert (M : match_minus ((if neg then "-" else "") ++ ds ++ "]" ++ rest)%string
              = ((if neg then "-" else "")%string, (ds ++ "]" ++ rest)%string)).
  { destruct neg; [reflexivity|]. destruct ds as [|c ds]; [congruence|].
    simpl in Hd. apply andb_true_iff in Hd. destruct Hd as [Hc _].
    apply (match_minus_digit c _ Hc). }
  change (match_index ("[" ++ (if neg then "-" else "") ++ ds ++ "]" ++ rest))
    with (let (sg, s2) :=
            match_minus ((if neg then "-" else "") ++ ds ++ "]" ++ rest) in
          match span is_digit s2 with
          | (EmptyString, _) => None
          | (ds0, s3) =>
              let (b1, s4) :=
                match match_bound s3 with
                | Some p => p
                | None => (EmptyString, s3)
                end in
              let (b2, s5) :=
                match b1 with
                | EmptyString => (EmptyString, s4)
                | _ => match match_bound s4 with
                       | Some p => p
                       | None => (EmptyString, s4)
                       end
                end in
              match s5 with
              | String "]" r => Some ((sg ++ ds0 ++ b1 ++ b2)%string, r)
              | _ => None
              end
          end)%string.
  rewrite M, Sp. destruct ds as [|c ds]; [congruence|].
  simpl. rewrite !append_empty_r. reflexivity.
Qed.

Lemma match_index_not_bracket (s : string) :
  s = "" \/ (exists r, s = String "/" r) -> match_index s = None.
Proof. intros [->|[r ->]]; reflexivity. Qed.

Lemma match_step_one_slash (c : ascii) (r : string) :
  is_slash c = false ->
  match_step (String "/" (String c r)) = match_after_axis "/" (String c r).
Proof.
  unfold is_slash. intros H. apply Ascii.eqb_neq in H.
  destruct c as [[] [] [] [] [] [] [] []]; try reflexivity.
  exfalso. apply H. reflexivity.
Qed.

Lemma findall_first_read (descendant : bool) (s : string) (m : StepMatch) :
  match s with String c _ => is_slash c = false | EmptyString => False end ->
  match_after_axis (if descendant then "//" else "/") s = Some m ->
  findall_first ((if descendant then "//" else "/") ++ s)%string = Some m.
Proof.
  intros Hs M. destruct s as [|c r]; [contradiction|].
  destruct descendant.
  - change ("//" ++ String c r)%string
      with (String "/" (String "/" (String c r))).
    rewrite findall_first_cons. cbn [match_step]. rewrite M. reflexivity.
  - change ("/" ++ String c r)%string with (String "/" (String c r)).
    rewrite findall_first_cons, (match_step_one_slash c r Hs), M.
    reflexivity.
Qed.


Lemma has_colon_digits (ds : string) :
  string_all is_digit ds = true -> has_colon ds = false.
Proof.
  induction ds as [|c ds IH]; simpl; [reflexivity|].
  intros H. apply andb_true_iff in H. destruct H as [Hc Hd].
  rewrite (IH Hd), orb_false_r.
  destruct (Ascii.eqb c ":") eqn:E; [|reflexivity].
  apply Ascii.eqb_eq in E. subst c. discriminate.
Qed.

(** ** [BatchTask]: splitting and joining *)

Lemma split_char_no_sep (c : ascii) (a : string) :
  string_all (fun d => negb (Ascii.eqb d c)) a = true ->
  BatchTask.split_char c a = [a].
Proof.
  induction a as [|d a IH]; [reflexivity|].
  cbn [string_all BatchTask.split_char]. intros H.
  apply andb_true_iff in H. destruct H as [Hd Ha].
  apply negb_true_iff in Hd. rewrite Hd, (IH Ha). reflexivity.
Qed.

Lemma split_char_app (c : ascii) (a b : string) :
  string_all (fun d => negb (Ascii.eqb d c)) a = true ->
  BatchTask.split_char c (a ++ String c b)%string
  = a :: BatchTask.split_char c b.
Proof.
  induction a as [|d a IH]; intros H.
  - cbn [append BatchTask.split_char]. rewrite Ascii.eqb_refl. reflexivity.
  - cbn [string_all] in H. apply andb_true_iff in H. destruct H as [Hd Ha].
    apply negb_true_iff in Hd.
    cbn [append BatchTask.split_char]. rewrite Hd, (IH Ha). reflexivity.
Qed.

(** Splitting a text joined with a separator gives back the parts, when
    no part contains the separator. *)
Lemma split_char_concat (c : ascii) (l : list string) :
  l <> [] ->
  Forall (fun e => string_all (fun d => negb (Ascii.eqb d c)) e = true) l ->
  BatchTask.split_char c (String.concat (String c EmptyString) l) = l.
Proof.
  intros Hne H. induction H as [|x l Hx Hl IH]; [congruence|].
  destruct l as [|y l].
  - simpl. apply split_char_no_sep. assumption.
  - change (String.concat (String c "") (x :: y :: l))
      with (x ++ String c (String.concat (String c "") (y :: l)))%string.
    rewrite (split_char_app c x _ Hx), IH by discriminate. reflexivity.
Qed.

Lemma string_all_app (p : ascii -> bool) (a b : string) :
  string_all p (a ++ b)%string = string_all p a && string_all p b.
Proof.
  induction a as [|c a IH]; [reflexivity|]. simpl. rewrite IH.
  apply andb_assoc.
Qed.

Lemma string_all_concat (p : ascii -> bool) (sep : string) (l : list string) :
  string_all p sep = true ->
  Forall (fun e => string_all p e = true) l ->
  string_all p (String.concat sep l) = true.
Proof.
  intros Hs H. induction H as [|x l Hx Hl IH]; [reflexivity|].
  destruct l as [|y l]; [exact Hx|].
  change (String.concat sep (x :: y :: l))
    with (x ++ sep ++ String.concat sep (y :: l))%string.
  rewrite !string_all_app, Hx, Hs, IH. reflexivity.
Qed.

Lemma split_pair_no_first (a b : ascii) (s : string) :
  string_all (fun d => negb (Ascii.eqb d a)) s = true ->
  BatchTask.split_pair a b s = [s].
Proof.
  induction s as [|c r IH]; [reflexivity|].
  cbn [string_all]. intros H. apply andb_true_iff in H.
  destruct H as [Hc Hr]. apply negb_true_iff in Hc.
  cbn [BatchTask.split_pair]. rewrite (IH Hr), Hc.
  destruct r; reflexivity.
Qed.

Lemma string_all_weaken (p q : ascii -> bool) (s : string) :
  (forall c, p c = true -> q c = true) ->
  string_all p s = true -> string_all q s = true.
Proof.
  intros H. induction s as [|c s IH]; [reflexivity|]. simpl.
  rewrite !andb_true_iff. intros [Hc Hs]. auto.
Qed.

Lemma strip_nonempty_id (l : list string) :
  Forall (fun e => e <> "" /\ BatchTask.strip e = e) l ->
  map BatchTask.strip (filter (fun e => negb (String.eqb e "")) l) = l.
Proof.
  induction 1 as [|e l [Hne Hs] _ IH]; [reflexivity|].
  cbn [filter]. destruct (String.eqb e "") eqn:E.
  - apply String.eqb_eq in E. congruence.
  - cbn [negb map]. rewrite Hs, IH. reflexivity.
Qed.

(** ** [BatchTask]: actions *)

Lemma existsb_eqb_In (x : string) (l : list string) :
  existsb (String.eqb x) l = true <-> In x l.
Proof.
  rewrite existsb_exists. split.
  - intros [y [Hy E]]. apply String.eqb_eq in E. subst. assumption.
  - intros H. exists x. split; [assumption | apply String.eqb_refl].
Qed.

Lemma has_colon_string_all (s : string) :
  has_colon s = false ->
  string_all (fun d => negb (Ascii.eqb d ":")) s = true.
Proof.
  induction s as [|c s IH]; [reflexivity|]. simpl.
  intros H. apply orb_false_iff in H. destruct H as [Hc Hs].
  rewrite Hc, (IH Hs). reflexivity.
Qed.

Lemma has_colon_app_colon (a b : string) :
  has_colon (a ++ String ":" b)%string = true.
Proof.
  induction a as [|c a IH]; [reflexivity|]. simpl. rewrite IH.
  apply orb_true_r.
Qed.

(** X12.  [verify_action] checks the name of an action only, that is the
    text before its first colon: an action with an argument is accepted
    exactly when its name is a verb or an action of inkscape, and the
    [ValueError] of a refused action carries the name without the
    argument. *)
Theorem verify_action_checks_name
    (verb_list action_list : list string) (name arg : string) :
  has_colon name = false ->
  (In name (verb_list ++ action_list) ->
   BatchTask.verify_action verb_list action_list (name ++ ":" ++ arg)%string
   = None
   /\ BatchTask.verify_action verb_list action_list name = None)
  /\ (~ In name (verb_list ++ action_list) ->
      BatchTask.verify_action verb_list action_list (name ++ ":" ++ arg)%string
      = Some name
      /\ BatchTask.verify_action verb_list action_list name = Some name).
Proof.
  intros Hc. unfold BatchTask.verify_action.
  change (name ++ ":" ++ arg)%string with (name ++ String ":" arg)%string.
  rewrite has_colon_app_colon, Hc.
  rewrite (split_char_app ":" name arg (has_colon_string_all name Hc)).
  cbn [hd]. split; intros H.
  - apply existsb_eqb_In in H. rewrite H. auto.
  - assert (E : existsb (String.eqb name) (verb_list ++ action_list) = false).
    { destruct (existsb _ _) eqn:E; [|reflexivity].
      apply existsb_eqb_In in E. contradiction. }
    rewrite E. auto.
Qed.

Lemma verify_action_checks_name_witness :
  BatchTask.verify_action ["EditDeselect"] ["select-by-id"]
                          "select-by-id:rect1" = None
  /\ BatchTask.verify_action ["EditDeselect"] ["select-by-id"]
                             "export:png:x" = Some "export".
Proof.
  destruct (verify_action_checks_name ["EditDeselect"] ["select-by-id"]
              "select-by-id" "rect1" eq_refl) as [H1 _].
  destruct (verify_action_checks_name ["EditDeselect"] ["select-by-id"]
              "export" "png:x" eq_refl) as [_ H2].
  split.
  - apply H1. right. left. reflexivity.
  - apply H2. simpl. intros [H|[H|[]]]; discriminate.
Defined.

Section ActionLists.
Variable id_text : Node -> string.
Variables verb_list action_list : list string.

Let valid (action : string) : Prop :=
  BatchTask.verify_action verb_list action_list action = None.

Lemma do_actions_valid (actions : list string) :
  Forall valid actions ->
  forall actions_list,
    BatchTask.do_actions verb_list action_list actions_list actions
    = inr (actions_list ++ actions).
Proof.
  induction 1 as [|a l Ha _ IH]; intros actions_list; simpl.
  - rewrite app_nil_r. reflexivity.
  - unfold valid in Ha. rewrite Ha, IH, <- app_assoc. reflexivity.
Qed.

Lemma do_actions_invalid (pre post : list string) (a bad : string) :
  Forall valid pre ->
  BatchTask.verify_action verb_list action_list a = Some bad ->
  forall actions_list,
    BatchTask.do_actions verb_list action_list actions_list
                         (pre ++ a :: post)
    = inl bad.
Proof.
  intros Hpre Ha. induction Hpre as [|x l Hx _ IH]; intros actions_list; simpl.
  - rewrite Ha. reflexivity.
  - unfold valid in Hx. rewrite Hx. apply IH.
Qed.

Lemma select_do_individually_valid (actions : list string) :
  Forall valid actions ->
  forall objs actions_list,
    BatchTask.select_do_individually id_text verb_list action_list
                                     actions_list objs actions
    = inr (actions_list
           ++ flat_map
                (fun obj => "EditDeselect"
                            :: ("select-by-id:" ++ id_text obj)%string
                            :: actions)
                objs).
Proof.
  intros Hv. induction objs as [|o objs IH]; intros actions_list; simpl.
  - rewrite app_nil_r. reflexivity.
  - rewrite (do_actions_valid actions Hv), IH, <- !app_assoc. reflexivity.
Qed.
End ActionLists.

(** X13.  When every effect is accepted, [select_do_on_all] appends to the
    list one selection per object, in the order of the objects, then the
    effects once, and [select_do_individually] appends for each object a
    deselection, its selection and all the effects.  At the first effect
    that is refused, both raise the [ValueError] of that effect if there
    is an object; with no object, [select_do_individually] checks nothing
    and returns the list as it is. *)
Theorem selection_functions_build_actions
    (id_text : Node -> string) (verb_list action_list : list string)
    (actions_list : list string) (objs : list Node) (actions : list string) :
  (Forall (fun a => BatchTask.verify_action verb_list action_list a = None)
          actions ->
   BatchTask.select_do_on_all id_text verb_list action_list
                              actions_list objs actions
   = inr (actions_list
          ++ map (fun obj => ("select-by-id:" ++ id_text obj)%string) objs
          ++ actions)
   /\ BatchTask.select_do_individually id_text verb_list action_list
                                       actions_list objs actions
      = inr (actions_list
             ++ flat_map
                  (fun obj => "EditDeselect"
                              :: ("select-by-id:" ++ id_text obj)%string
                              :: actions)
                  objs))
  /\ (forall pre a post bad,
        actions = pre ++ a :: post ->
        Forall (fun a => BatchTask.verify_action verb_list action_list a = None)
               pre ->
        BatchTask.verify_action verb_list action_list a = Some bad ->
        BatchTask.select_do_on_all id_text verb_list action_list
                                   actions_list objs actions
        = inl bad
        /\ (objs <> [] ->
            BatchTask.select_do_individually id_text verb_list action_list
                                             actions_list objs actions
            = inl bad))
  /\ BatchTask.select_do_individually id_text verb_list action_list
                                      actions_list [] actions
     = inr actions_list.
Proof.
  split; [|split].
  - intros Hv. split.
    + unfold BatchTask.select_do_on_all.
      rewrite (do_actions_valid verb_list action_list actions Hv),
        <- app_assoc. reflexivity.
    + apply select_do_individually_valid. assumption.
  - intros pre a post bad -> Hpre Ha. split.
    + unfold BatchTask.select_do_on_all.
      apply do_actions_invalid; assumption.
    + intros Hne. destruct objs as [|o objs]; [congruence|]. simpl.
      rewrite (do_actions_invalid verb_list action_list pre post a bad
                 Hpre Ha). reflexivity.
  - reflexivity.
Qed.

Lemma selection_functions_build_actions_witness :
  BatchTask.select_do_on_all
    (fun o => String (ascii_of_nat (48 + get_id o)) "")
    ["SelectionUnion"] ["select-by-id"] [] [Sample.path 3; Sample.c7]
    ["SelectionUnion"]
  = inr ["select-by-id:3"; "select-by-id:7"; "SelectionUnion"]
  /\ BatchTask.select_do_individually
       (fun o => String (ascii_of_nat (48 + get_id o)) "")
       ["SelectionUnion"] ["select-by-id"] [] [Sample.path 3; Sample.c7]
       ["SelectionUnion"; "Bogus:1"]
     = inl "Bogus".
Proof.
  destruct (selection_functions_build_actions
              (fun o => String (ascii_of_nat (48 + get_id o)) "")
              ["SelectionUnion"] ["select-by-id"] []
              [Sample.path 3; Sample.c7] ["SelectionUnion"]) as [H1 _].
  destruct (selection_functions_build_actions
              (fun o => String (ascii_of_nat (48 + get_id o)) "")
              ["SelectionUnion"] ["select-by-id"] []
              [Sample.path 3; Sample.c7] ["SelectionUnion"; "Bogus:1"])
    as [_ [H2 _]].
  split.
  - apply H1. repeat constructor.
  - apply (H2 ["SelectionUnion"] "Bogus:1" [] "Bogus" eq_refl).
    + repeat constructor.
    + reflexivity.
    + discriminate.
Defined.

(** ** [BatchTask]: the effects and the run *)

(** X14.  On the [Simple] tab the effects are read from [effect1],
    [effect2] and [effect3], stripped, in this order, but only when
    [effect1] is given: without it the [ValueError] is raised at once,
    whatever [effect2] and [effect3]. *)
Theorem simple_tab_requires_effect1 (options : BatchTask.Options) :
  BatchTask.tab_effect options = Some "Simple" ->
  (BatchTask.effect1 options = None -> BatchTask.read_effects options = None)
  /\ (forall text,
        BatchTask.effect1 options = Some text ->
        BatchTask.read_effects options
        = Some (BatchTask.strip text
                :: flat_map (fun e => match e with
                                      | Some t => [BatchTask.strip t]
                                      | None => []
                                      end)
                            [BatchTask.effect2 options;
                             BatchTask.effect3 options])).
Proof.
  intros T. unfold BatchTask.read_effects. rewrite T. simpl. split.
  - intros ->. reflexivity.
  - intros text ->.
    destruct (BatchTask.effect2 options), (BatchTask.effect3 options);
      reflexivity.
Qed.

Lemma simple_tab_requires_effect1_witness :
  BatchTask.read_effects
    (BatchTask.mkOptions "root" "/*" "all" (Some "Simple")
                         None (Some "SelectionUnion") None None "false")
  = None
  /\ BatchTask.read_effects
       (BatchTask.mkOptions "root" "/*" "all" (Some "Simple")
                            (Some " SelectionUnion ") None (Some "FileSave")
                            None "false")
     = Some ["SelectionUnion"; "FileSave"].
Proof.
  split.
  - exact (proj1 (simple_tab_requires_effect1
                    (BatchTask.mkOptions "root" "/*" "all" (Some "Simple")
                       None (Some "SelectionUnion") None None "false")
                    eq_refl) eq_refl).
  - exact (proj2 (simple_tab_requires_effect1
                    (BatchTask.mkOptions "root" "/*" "all" (Some "Simple")
                       (Some " SelectionUnion ") None (Some "FileSave")
                       None "false")
                    eq_refl) " SelectionUnion " eq_refl).
Defined.

(** X15.  [effect] runs inkscape only on a list of actions that is not
    empty: it then passes the actions followed by [FileSave] and
    [FileQuit], joined with semicolons, so that, when no action contains
    a semicolon, the command splits back into exactly these actions; on
    an empty list, or on [None], it only records a message. *)
Theorem effect_passes_actions (input_file : string)
    (actions_list : list string) :
  effect input_file None
  = (["No actions received. Perhaps you are calling inkex object methods?"],
     None)
  /\ effect input_file (Some [])
     = (["No actions received. Perhaps you are calling inkex object methods?"],
        None)
  /\ (actions_list <> [] ->
      Forall (fun a => string_all (fun c => negb (is_semicolon c)) a = true)
             actions_list ->
      exists command,
        effect input_file (Some actions_list)
        = ([], Some ((input_file ++ "-BaseExtension.svg")%string, command))
        /\ BatchTask.split_char ";" command
           = actions_list ++ ["FileSave"; "FileQuit"]).
Proof.
  split; [reflexivity|]. split; [reflexivity|].
  intros Hne H.
  exists (String.concat ";" (actions_list ++ ["FileSave"; "FileQuit"])).
  split.
  - destruct actions_list; [congruence | reflexivity].
  - apply split_char_concat.
    + destruct actions_list; discriminate.
    + apply Forall_app. split; [exact H|]. repeat constructor.
Qed.

Lemma effect_passes_actions_witness :
  exists command,
    effect "/tmp/in.svg" (Some ["select-by-id:3"; "SelectionUnion"])
    = ([], Some ("/tmp/in.svg-BaseExtension.svg", command))
    /\ BatchTask.split_char ";" command
       = ["select-by-id:3"; "SelectionUnion"; "FileSave"; "FileQuit"].
Proof.
  destruct (effect_passes_actions "/tmp/in.svg"
              ["select-by-id:3"; "SelectionUnion"]) as [_ [_ H]].
  apply H; [discriminate | repeat constructor].
Defined.

Section CustomEffect.
Variable id_text : Node -> string.
Variables verb_list action_list : list string.
Variable depth : nat.
Variables (root : Node) (selected : list Node).
Variable options : BatchTask.Options.

Let run := BatchTask.custom_effect id_text verb_list action_list depth root
                                   selected options.

(** The object that the [target] option designates. *)
Let target_object (obj : QueryObject) : Prop :=
  (BatchTask.target options = "root" /\ obj = Element root)
  \/ (BatchTask.target options = "selected" /\ obj = ElementList selected).

Lemma custom_effect_find (obj : QueryObject) (effs : list string) :
  String.eqb (BatchTask.dry_run options) "true" = false ->
  BatchTask.read_effects options = Some effs ->
  target_object obj ->
  run
  = BatchTask.ebind
      (BatchTask.of_run (find depth root obj (BatchTask.xpath options)))
      (fun objects =>
         match objects with
         | [] =>
             BatchTask.ebind (BatchTask.say ["No objects to apply on."])
               (fun _ =>
             BatchTask.ebind
               (BatchTask.say
                  ["Root:"; show id_text (ShownElement root)]) (fun _ =>
             BatchTask.ebind
               (BatchTask.say
                  ["Selected:"; show id_text (ShownOther "ElementList")])
               (fun _ => BatchTask.stop (BatchTask.SystemExit 0))))
         | _ :: _ =>
             match
               (if String.eqb (BatchTask.mode options) "all" then
                  BatchTask.select_do_on_all id_text verb_list action_list
                                             [] objects effs
                else if String.eqb (BatchTask.mode options) "indiv" then
                  BatchTask.select_do_individually
                    id_text verb_list action_list [] objects effs
                else inr [])
             with
             | inl bad =>
                 BatchTask.ebind
                   (BatchTask.say
                      [("'" ++ bad
                        ++ "' is not a valid action or verb in inkscape.")
                       %string])
                   (fun _ => BatchTask.stop (BatchTask.SystemExit 1))
             | inr actions_list => BatchTask.done actions_list
             end
         end).
Proof.
  intros Hdry Heff Hobj. unfold run, BatchTask.custom_effect.
  rewrite Hdry, Heff.
  assert (E : (if String.eqb (BatchTask.target options) "root"
               then BatchTask.of_run
                      (find depth root (Element root)
                            (BatchTask.xpath options))
               else if String.eqb (BatchTask.target options) "selected"
                    then BatchTask.of_run
                           (find depth root (ElementList selected)
                                 (BatchTask.xpath options))
                    else BatchTask.stop (BatchTask.UnboundLocalError "objects"))
              = BatchTask.of_run
                  (find depth root obj (BatchTask.xpath options))).
  { destruct Hobj as [[-> ->]|[-> ->]]; reflexivity. }
  rewrite E. unfold BatchTask.ebind at 1. unfold BatchTask.done.
  destruct (BatchTask.ebind _ _) as [[w r]|]; reflexivity.
Qed.
End CustomEffect.

(** X16.  A run of [custom_effect] without dry run, whose effects were
    read, whose target is the root or the selection and whose query
    returns objects: when every effect is accepted it returns, after the
    messages of the query, the selections of all the objects followed by
    the effects in mode [all], a deselection, the selection and the
    effects for each object in mode [indiv], and the empty list in any
    other mode; when an effect is refused in mode [all] or [indiv] it
    records that the name of the effect is not valid and exits with
    status 1. *)
Theorem custom_effect_builds_actions
    (id_text : Node -> string) (verb_list action_list : list string)
    (depth : nat) (root : Node) (selected : list Node)
    (options : BatchTask.Options) (obj : QueryObject)
    (effs : list string) (w : list string) (o : Node) (objects : list Node) :
  String.eqb (BatchTask.dry_run options) "true" = false ->
  BatchTask.read_effects options = Some effs ->
  (BatchTask.target options = "root" /\ obj = Element root)
  \/ (BatchTask.target options = "selected" /\ obj = ElementList selected) ->
  find depth root obj (BatchTask.xpath options) = Some (w, Ok (o :: objects)) ->
  let run := BatchTask.custom_effect id_text verb_list action_list depth root
                                     selected options in
  let select := fun obj => ("select-by-id:" ++ id_text obj)%string in
  (Forall (fun a => BatchTask.verify_action verb_list action_list a = None)
          effs ->
   (BatchTask.mode options = "all" ->
    run = Some (w, inr (map select (o :: objects) ++ effs)))
   /\ (BatchTask.mode options = "indiv" ->
       run = Some (w, inr (flat_map
                            (fun obj => "EditDeselect" :: select obj :: effs)
                            (o :: objects))))
   /\ (String.eqb (BatchTask.mode options) "all" = false ->
       String.eqb (BatchTask.mode options) "indiv" = false ->
       run = Some (w, inr [])))
  /\ (forall pre a post bad,
        effs = pre ++ a :: post ->
        Forall (fun a => BatchTask.verify_action verb_list action_list a = None)
               pre ->
        BatchTask.verify_action verb_list action_list a = Some bad ->
        BatchTask.mode options = "all" \/ BatchTask.mode options = "indiv" ->
        run = Some (w ++ [("'" ++ bad
                           ++ "' is not a valid action or verb in inkscape.")
                          %string],
                    inl (BatchTask.SystemExit 1))).
Proof.
  intros Hdry Heff Hobj Hfind run select. unfold run.
  rewrite (custom_effect_find id_text verb_list action_list depth root
             selected options obj effs Hdry Heff Hobj).
  rewrite Hfind. cbn [BatchTask.of_run BatchTask.ebind].
  split.
  - intros Hv. split; [|split].
    + intros ->. cbn [String.eqb Ascii.eqb Bool.eqb].
      unfold BatchTask.select_do_on_all.
      rewrite (do_actions_valid verb_list action_list effs Hv).
      cbn [BatchTask.done]. rewrite app_nil_r. reflexivity.
    + intros ->. cbn [String.eqb Ascii.eqb Bool.eqb].
      rewrite (select_do_individually_valid id_text verb_list action_list
                 effs Hv).
      cbn [BatchTask.done]. rewrite app_nil_r. reflexivity.
    + intros -> ->. cbn [BatchTask.done]. rewrite app_nil_r. reflexivity.
  - intros pre a post bad -> Hpre Ha Hmode.
    assert (E : (if String.eqb (BatchTask.mode options) "all"
                 then BatchTask.select_do_on_all id_text verb_list action_list
                        [] (o :: objects) (pre ++ a :: post)
                 else if String.eqb (BatchTask.mode options) "indiv"
                      then BatchTask.select_do_individually
                             id_text verb_list action_list []
                             (o :: objects) (pre ++ a :: post)
                      else inr [])
                = inl bad).
    { destruct Hmode as [-> | ->]; cbn [String.eqb Ascii.eqb Bool.eqb].
      - unfold BatchTask.select_do_on_all.
        apply do_actions_invalid; assumption.
      - cbn [BatchTask.select_do_individually].
        rewrite (do_actions_invalid verb_list action_list pre post a bad
                   Hpre Ha). reflexivity. }
    rewrite E. reflexivity.
Qed.

Lemma custom_effect_builds_actions_witness :
  BatchTask.custom_effect
    (fun o => String (ascii_of_nat (48 + get_id o)) "")
    ["SelectionUnion"] ["select-by-id"] 1 Sample.doc []
    (BatchTask.mkOptions "root" "/g[0:2]" "all" None
                         (Some "SelectionUnion") None None None "false")
  = Some ([], inr ["select-by-id:2"; "select-by-id:8"; "SelectionUnion"]).
Proof.
  assert (F : find 1 Sample.doc (Element Sample.doc) "/g[0:2]"
              = Some ([], Ok [Sample.g1; Sample.g8]))
    by (vm_compute; reflexivity).
  destruct (custom_effect_builds_actions
              (fun o => String (ascii_of_nat (48 + get_id o)) "")
              ["SelectionUnion"] ["select-by-id"] 1 Sample.doc []
              (BatchTask.mkOptions "root" "/g[0:2]" "all" None
                 (Some "SelectionUnion") None None None "false")
              (Element Sample.doc) ["SelectionUnion"] [] Sample.g1 [Sample.g8]
              eq_refl eq_refl (or_introl (conj eq_refl eq_refl)) F)
    as [H _].
  assert (V : Forall (fun a => BatchTask.verify_action
                                 ["SelectionUnion"] ["select-by-id"] a = None)
                ["SelectionUnion"]) by (repeat constructor).
  exact (proj1 (H V) eq_refl).
Defined.

(** X18.  The dry run does not prevent anything: in a well-formed
    document a run with [dry_run] set to [true] records what the query
    [/*] finds on the root and on the selection, then an empty message,
    and goes on exactly as the run without dry run does, to the same
    actions or the same end. *)
Theorem dry_run_only_adds_messages
    (id_text : Node -> string) (verb_list action_list : list string)
    (depth : nat) (root : Node) (selected : list Node)
    (options : BatchTask.Options) :
  wf_document root ->
  BatchTask.dry_run options = "true" ->
  BatchTask.custom_effect id_text verb_list action_list (S depth) root
                          selected options
  = match BatchTask.custom_effect id_text verb_list action_list (S depth)
                                  root selected
                                  (with_dry_run options "false") with
    | None => None
    | Some (w, r) =>
        Some (("Root: "
               ++ show id_text
                    (ShownList (filter (contains (candidates (Element root)))
                                       (iter root))))%string
              :: ("Selected: "
                  ++ show id_text
                       (ShownList
                          (filter (contains (candidates (ElementList selected)))
                                  (iter root))))%string
              :: "" :: w, r)
    end.
Proof.
  intros WF Hdry.
  assert (W : forall obj,
             find (S depth) root obj "/*"
             = Some ([], Ok (filter (contains (candidates obj)) (iter root)))).
  { intros obj. rewrite find_candidates.
    apply (recurse_wildcard_immediate root "/*" (mkStepMatch "/" "*" "" ""));
      try reflexivity. assumption. }
  unfold BatchTask.custom_effect.
  rewrite Hdry, !W.
  change (String.eqb "true" "true") with true.
  change (String.eqb (BatchTask.dry_run (with_dry_run options "false")) "true")
    with false.
  cbv iota.
  change (BatchTask.read_effects (with_dry_run options "false"))
    with (BatchTask.read_effects options).
  change (BatchTask.target (with_dry_run options "false"))
    with (BatchTask.target options).
  change (BatchTask.xpath (with_dry_run options "false"))
    with (BatchTask.xpath options).
  change (BatchTask.mode (with_dry_run options "false"))
    with (BatchTask.mode options).
  match goal with
  | |- BatchTask.ebind _ ?k = match BatchTask.ebind _ ?k' with _ => _ end =>
      change k' with k; generalize k
  end.
  intros k.
  unfold BatchTask.ebind, BatchTask.of_run, BatchTask.say, BatchTask.done.
  destruct (k tt) as [[w r]|]; reflexivity.
Qed.

Lemma dry_run_only_adds_messages_witness :
  BatchTask.custom_effect
    (fun o => String (ascii_of_nat (48 + get_id o)) "")
    ["SelectionUnion"] ["select-by-id"] 1 Sample.doc [Sample.c7]
    (BatchTask.mkOptions "selected" "/p" "indiv" None
                         (Some "SelectionUnion") None None None "true")
  = Some (["Root: [Group(2), PathElement(7), Group(8), Group(9)]";
           "Selected: [PathElement(7)]"; ""],
          inr ["EditDeselect"; "select-by-id:7"; "SelectionUnion"]).
Proof.
  exact (dry_run_only_adds_messages
           (fun o => String (ascii_of_nat (48 + get_id o)) "")
           ["SelectionUnion"] ["select-by-id"] 0 Sample.doc [Sample.c7]
           (BatchTask.mkOptions "selected" "/p" "indiv" None
                                (Some "SelectionUnion") None None None "true")
           wf_sample_doc eq_refl).
Defined.

(** ** Integers between brackets *)

Lemma string_of_uint_digits (d : Decimal.uint) :
  string_all is_digit (DecimalString.NilEmpty.string_of_uint d) = true.
Proof. induction d; simpl; auto. Qed.

Lemma digits_value_uint (d : Decimal.uint) :
  forall a : nat,
    digits_value (Z.of_nat a) (DecimalString.NilEmpty.string_of_uint d)
    = Some (Z.of_nat (Nat.of_uint_acc d a)).
Proof.
  induction d; intros a;
    cbn [DecimalString.NilEmpty.string_of_uint digits_value Nat.of_uint_acc];
    [reflexivity | ..];
    match goal with
    | |- context [is_digit ?c] => change (is_digit c) with true
    end;
    cbv iota; rewrite <- IHd; f_equal; rewrite Nat.tail_mul_spec;
    match goal with
    | |- context [nat_of_ascii ?c] =>
        let v := eval vm_compute in (nat_of_ascii c - 48) in
        change (nat_of_ascii c - 48) with v
    end; lia.
Qed.

Lemma decimal_digits (n : nat) : string_all is_digit (decimal n) = true.
Proof. apply string_of_uint_digits. Qed.

Lemma decimal_value (n : nat) : digits_value 0 (decimal n) = Some (Z.of_nat n).
Proof.
  unfold decimal.
  pose proof (digits_value_uint (Nat.to_uint n) 0) as H.
  change (Z.of_nat 0) with 0%Z in H. rewrite H.
  change (Nat.of_uint_acc (Nat.to_uint n) 0) with (Nat.of_uint (Nat.to_uint n)).
  rewrite DecimalNat.Unsigned.of_to. reflexivity.
Qed.

Lemma decimal_nonempty (n : nat) : decimal n <> "".
Proof.
  unfold decimal.
  assert (H : Nat.to_uint n <> Decimal.Nil).
  { rewrite <- (DecimalNat.Unsigned.of_to n) at 1.
    rewrite DecimalNat.Unsigned.to_of. apply DecimalFacts.unorm_nonnil. }
  destruct (Nat.to_uint n); [congruence | discriminate ..].
Qed.

Lemma digits_int_decimal (n : nat) :
  String.length (decimal n) <= int_max_str_digits ->
  digits_int (decimal n) = Some (Z.of_nat n).
Proof.
  intros H. unfold digits_int.
  replace (int_max_str_digits <? String.length (decimal n))%nat with false
    by (symmetry; apply Nat.ltb_ge; exact H).
  apply decimal_value.
Qed.

Lemma py_int_starts_digit (c : ascii) (r : string) :
  is_digit c = true -> py_int (String c r) = digits_int (String c r).
Proof.
  destruct c as [[] [] [] [] [] [] [] []]; try reflexivity; discriminate.
Qed.

(** The text of an integer, written in decimal with at most
    [int_max_str_digits] digits, is converted to that integer. *)
Lemma convert_this_n_decimal (neg : bool) (n : nat) :
  String.length (decimal n) <= int_max_str_digits ->
  convert_this_n ((if neg then "-" else "") ++ decimal n)%string
  = Ok (IndexSelector (if neg then - Z.of_nat n else Z.of_nat n)).
Proof.
  intros H.
  pose proof (digits_int_decimal n H) as Hv.
  pose proof (decimal_nonempty n) as Hne.
  pose proof (decimal_digits n) as Hd.
  destruct (decimal n) as [|c ds] eqn:E; [congruence|].
  assert (Hc : is_digit c = true)
    by (simpl in Hd; apply andb_true_iff in Hd; tauto).
  assert (Hcol : has_colon (String c ds) = false)
    by (apply has_colon_digits; assumption).
  unfold convert_this_n. destruct neg.
  - change ("-" ++ String c ds)%string with (String "-" (String c ds)).
    change (String.eqb (String "-" (String c ds)) "") with false.
    change (has_colon (String "-" (String c ds)))
      with (has_colon (String c ds)).
    change (py_int (String "-" (String c ds)))
      with (option_map Z.opp (digits_int (String c ds))).
    cbv iota. rewrite Hcol, Hv. reflexivity.
  - change ("" ++ String c ds)%string with (String c ds).
    change (String.eqb (String c ds) "") with false.
    cbv iota. rewrite Hcol, (py_int_starts_digit c ds Hc), Hv. reflexivity.
Qed.

(** A step with an integer between brackets is read as its four parts. *)
Lemma findall_first_index_step (descendant neg : bool) (ty ds rest : string) :
  ty = "*" \/ (ty <> "" /\ string_all is_word ty = true) ->
  ds <> "" -> string_all is_digit ds = true ->
  string_all (fun c => negb (Ascii.eqb c "010")) rest = true ->
  findall_first ((if descendant then "//" else "/") ++ ty ++ "["
                 ++ ((if neg then "-" else "") ++ ds) ++ "]" ++ rest)%string
  = Some (mkStepMatch (if descendant then "//" else "/") ty
                      ((if neg then "-" else "") ++ ds)%string rest).
Proof.
  intros Hty Hne Hd Hrest.
  apply findall_first_read.
  - destruct Hty as [->|[Hn Hw]]; [reflexivity|].
    destruct ty as [|c ty]; [congruence|]. simpl in Hw |- *.
    apply andb_true_iff in Hw. destruct Hw as [Hc _].
    destruct (is_slash c) eqn:E; [|reflexivity].
    unfold is_slash in E. apply Ascii.eqb_eq in E. subst c. discriminate.
  - unfold match_after_axis.
    rewrite (match_type_read ty
               ("[" ++ ((if neg then "-" else "") ++ ds) ++ "]" ++ rest)%string)
      by (destruct Hty as [->|[Hn Hw]];
          [left; reflexivity
          | right; split; [exact Hn | split; [exact Hw | reflexivity]]]).
    replace ("[" ++ ((if neg then "-" else "") ++ ds) ++ "]" ++ rest)%string
      with ("[" ++ (if neg then "-" else "") ++ ds ++ "]" ++ rest)%string
      by (destruct neg; reflexivity).
    rewrite (match_index_read neg ds rest Hne Hd), (span_all _ rest Hrest).
    reflexivity.
Qed.

(** A step without brackets, before another step or the end. *)
Lemma findall_first_plain_step (descendant : bool) (ty rest : string) :
  ty = "*" \/ (ty <> "" /\ string_all is_word ty = true) ->
  string_all (fun c => negb (Ascii.eqb c "010")) rest = true ->
  rest = "" \/ (exists r, rest = String "/" r) ->
  findall_first ((if descendant then "//" else "/") ++ ty ++ rest)%string
  = Some (mkStepMatch (if descendant then "//" else "/") ty "" rest).
Proof.
  intros Hty Hrest Hr.
  apply findall_first_read.
  - destruct Hty as [->|[Hn Hw]]; [reflexivity|].
    destruct ty as [|c ty]; [congruence|]. simpl in Hw |- *.
    apply andb_true_iff in Hw. destruct Hw as [Hc _].
    destruct (is_slash c) eqn:E; [|reflexivity].
    unfold is_slash in E. apply Ascii.eqb_eq in E. subst c. discriminate.
  - unfold match_after_axis. rewrite (match_type_read ty rest).
    + rewrite (match_index_not_bracket rest Hr), (span_all _ rest Hrest).
      reflexivity.
    + destruct Hty as [->|[Hn Hw]]; [left; reflexivity|].
      right. split; [assumption|]. split; [assumption|].
      destruct Hr as [->|[r ->]]; [exact I | reflexivity].
Qed.

(** X10.  A step written as an axis, a type (a star, or ASCII word
    characters), the decimal writing of an integer, of at most 4300
    digits, between brackets, and a rest without newline, is read back as
    exactly these four parts, and the text between the brackets is
    converted to that integer; without brackets, and before another step
    or the end of the expression, the step is read with an empty
    selector. *)
Theorem step_read_back (descendant neg : bool) (ty rest : string) (n : nat) :
  ty = "*" \/ (ty <> "" /\ string_all is_word ty = true) ->
  String.length (decimal n) <= 4300 ->
  string_all (fun c => negb (Ascii.eqb c "010")) rest = true ->
  let ax := (if descendant then "//" else "/")%string in
  let sel := ((if neg then "-" else "") ++ decimal n)%string in
  findall_first (ax ++ ty ++ "[" ++ sel ++ "]" ++ rest)%string
  = Some (mkStepMatch ax ty sel rest)
  /\ convert_this_n sel
     = Ok (IndexSelector (if neg then - Z.of_nat n else Z.of_nat n))
  /\ (rest = "" \/ (exists r, rest = String "/" r) ->
      findall_first (ax ++ ty ++ rest)%string
      = Some (mkStepMatch ax ty "" rest)).
Proof.
  intros Hty Hlen Hrest ax sel. split; [|split].
  - apply findall_first_index_step; try assumption.
    + apply decimal_nonempty.
    + apply decimal_digits.
  - apply convert_this_n_decimal. exact Hlen.
  - apply findall_first_plain_step; assumption.
Qed.

Lemma step_read_back_witness :
  findall_first "//img[-12]/g[0]"
  = Some (mkStepMatch "//" "img" "-12" "/g[0]")
  /\ convert_this_n "-12" = Ok (IndexSelector (-12))
  /\ findall_first "//img/g[0]" = Some (mkStepMatch "//" "img" "" "/g[0]").
Proof.
  assert (T : "img" = "*" \/ ("img" <> "" /\ string_all is_word "img" = true))
    by (right; split; [discriminate | reflexivity]).
  assert (L : String.length (decimal 12) <= 4300) by (vm_compute; lia).
  destruct (step_read_back true true "img" "/g[0]" 12 T L eq_refl)
    as [H1 [H2 H3]].
  split; [exact H1|]. split; [exact H2|].
  apply H3. right. exists "g[0]". reflexivity.
Defined.

(** ** Expressions and effects in ASCII *)

(** X4.  An expression of ASCII characters can be read as a step exactly
    when one of its slashes is directly followed by a word character or a
    star.  In a well-formed document a query on an ASCII expression
    without such a slash (the empty expression, or a slash followed by a
    bracket) raises [IndexError], whatever its candidates, before any
    message. *)
Theorem unreadable_expression_raises (root : Node) (depth : nat)
    (obj : QueryObject) (xpath : string) :
  string_all is_ascii xpath = true ->
  wf_document root ->
  (has_step xpath = true <-> exists m, findall_first xpath = Some m)
  /\ (has_step xpath = false ->
      find (S depth) root obj xpath = Some ([], Raise IndexError)).
Proof.
  intros _ WF. split.
  - pose proof (findall_first_None xpath) as H.
    destruct (findall_first xpath) as [m|], (has_step xpath).
    + split; eauto.
    + destruct H as [_ H]. specialize (H eq_refl). discriminate.
    + destruct H as [H _]. specialize (H eq_refl). discriminate.
    + split; [discriminate | intros [m Hm]; discriminate].
  - intros H. apply findall_first_None in H.
    rewrite find_candidates, recurse_S, (z_sort_filter _ _ WF), bind_lift_Ok.
    rewrite H. reflexivity.
Qed.

Lemma unreadable_expression_raises_witness :
  find 1 Sample.doc (Element Sample.doc) "/[0]" = Some ([], Raise IndexError)
  /\ exists m, findall_first "x//*" = Some m.
Proof.
  destruct (unreadable_expression_raises Sample.doc 0 (Element Sample.doc)
              "/[0]" eq_refl wf_sample_doc) as [_ H1].
  destruct (unreadable_expression_raises Sample.doc 0 (Element Sample.doc)
              "x//*" eq_refl wf_sample_doc) as [H2 _].
  split; [exact (H1 eq_refl) | exact (proj1 H2 eq_refl)].
Defined.

(** X11.  The text of the [Multi] tab is decoded into the effects it
    lists: effects of ASCII characters that are not empty, have no white
    space around them and contain neither semicolon nor backslash, joined
    with semicolons, are read back as they are. *)
Theorem multi_effects_reads_joined_effects (l : list string) :
  Forall (fun e =>
            e <> ""
            /\ string_all is_ascii e = true
            /\ BatchTask.strip e = e
            /\ string_all (fun c => negb (is_semicolon c)
                                    && negb (is_backslash c)) e = true) l ->
  BatchTask.multi_effects (String.concat ";" l) = l.
Proof.
  intros H. unfold BatchTask.multi_effects.
  assert (Hsemi : Forall (fun e => string_all
                                     (fun d => negb (Ascii.eqb d ";")) e
                                   = true) l).
  { eapply Forall_impl; [|exact H]. intros e [_ [_ [_ He]]].
    eapply string_all_weaken; [|exact He].
    intros c Hc. apply andb_true_iff in Hc. exact (proj1 Hc). }
  assert (Hback : Forall (fun e => string_all
                                     (fun d => negb (Ascii.eqb d "\")) e
                                   = true) l).
  { eapply Forall_impl; [|exact H]. intros e [_ [_ [_ He]]].
    eapply string_all_weaken; [|exact He].
    intros c Hc. apply andb_true_iff in Hc. exact (proj2 Hc). }
  assert (Hstrip : Forall (fun e => e <> "" /\ BatchTask.strip e = e) l).
  { eapply Forall_impl; [|exact H]. intros e [H1 [_ [H2 _]]]. auto. }
  rewrite split_pair_no_first
    by (apply string_all_concat; [reflexivity | exact Hback]).
  cbn [flat_map]. rewrite app_nil_r.
  destruct l as [|x l]; [reflexivity|].
  rewrite split_char_concat by (discriminate || exact Hsemi).
  apply strip_nonempty_id. exact Hstrip.
Qed.

Lemma multi_effects_reads_joined_effects_witness :
  BatchTask.multi_effects "SelectionUnion;export-type:png;FileSave"
  = ["SelectionUnion"; "export-type:png"; "FileSave"].
Proof.
  apply (multi_effects_reads_joined_effects
           ["SelectionUnion"; "export-type:png"; "FileSave"]).
  repeat constructor; discriminate.
Defined.

(** ** The ends of a run of [custom_effect] *)

Lemma read_effects_None (options : BatchTask.Options) :
  BatchTask.read_effects options = None
  <-> (BatchTask.tab_effect options = Some "Simple"
       /\ BatchTask.effect1 options = None)
      \/ (BatchTask.tab_effect options = Some "Multi"
          /\ BatchTask.effects options = None).
Proof.
  unfold BatchTask.read_effects.
  destruct (BatchTask.tab_effect options) as [t|] eqn:T.
  - destruct (String.eqb t "Simple") eqn:E1.
    + apply String.eqb_eq in E1. subst t. simpl.
      destruct (BatchTask.effect1 options) as [e1|].
      * destruct (BatchTask.effect2 options), (BatchTask.effect3 options);
          simpl; split; try discriminate;
          intros [[_ H]|[H _]]; discriminate.
      * split; [intros _; left; auto | reflexivity].
    + destruct (String.eqb t "Multi") eqn:E2.
      * apply String.eqb_eq in E2. subst t.
        destruct (BatchTask.effects options) as [text|].
        -- split; [discriminate|]. intros [[H _]|[_ H]]; discriminate.
        -- split; [intros _; right; auto | reflexivity].
      * apply String.eqb_neq in E1. apply String.eqb_neq in E2.
        split; [discriminate|]. intros [[H _]|[H _]]; congruence.
  - destruct (BatchTask.effects options) as [text|].
    + simpl. split; [discriminate|]. intros [[H _]|[H _]]; discriminate.
    + destruct (BatchTask.effect1 options) as [e1|]; simpl.
      * destruct (BatchTask.effect2 options), (BatchTask.effect3 options);
          simpl; split; try discriminate;
          intros [[H _]|[H _]]; discriminate.
      * split; [discriminate|]. intros [[H _]|[H _]]; discriminate.
Qed.

(** X17.  The ways a run of [custom_effect] without dry run ends before
    any action is built.  The reading of the effects raises [ValueError]
    exactly on the [Simple] tab without [effect1] and on the [Multi] tab
    without text; the run then records that no effect was given and exits
    with status 0 without running the query.  With no tab, no text and no
    [effect1] (the default options), and with an empty text on the
    [Multi] tab or without tab, nothing is raised: the list of effects is
    empty and the run goes on to the query.  With a target
    other than [root] and [selected] the name [objects] is not bound when
    it is read; an exception of the query is not caught; and a query that
    returns no object makes the run record three messages after those of
    the query and exit with status 0. *)
Theorem custom_effect_ends_early
    (id_text : Node -> string) (verb_list action_list : list string)
    (depth : nat) (root : Node) (selected : list Node)
    (options : BatchTask.Options) :
  String.eqb (BatchTask.dry_run options) "true" = false ->
  let run := BatchTask.custom_effect id_text verb_list action_list depth root
                                     selected options in
  ((BatchTask.tab_effect options = Some "Simple"
    /\ BatchTask.effect1 options = None)
   \/ (BatchTask.tab_effect options = Some "Multi"
       /\ BatchTask.effects options = None) ->
   BatchTask.read_effects options = None
   /\ run = Some (["No effects inputted! Quitting..."],
                  inl (BatchTask.SystemExit 0)))
  /\ (BatchTask.read_effects options = None ->
      (BatchTask.tab_effect options = Some "Simple"
       /\ BatchTask.effect1 options = None)
      \/ (BatchTask.tab_effect options = Some "Multi"
          /\ BatchTask.effects options = None))
  /\ (BatchTask.tab_effect options = None ->
      BatchTask.effects options = None ->
      BatchTask.effect1 options = None ->
      BatchTask.read_effects options = Some [])
  /\ (BatchTask.tab_effect options = None
      \/ BatchTask.tab_effect options = Some "Multi" ->
      BatchTask.effects options = Some "" ->
      BatchTask.read_effects options = Some [])
  /\ (forall effs,
        BatchTask.read_effects options = Some effs ->
        String.eqb (BatchTask.target options) "root" = false ->
        String.eqb (BatchTask.target options) "selected" = false ->
        run = Some ([], inl (BatchTask.UnboundLocalError "objects")))
  /\ (forall effs obj w,
        BatchTask.read_effects options = Some effs ->
        (BatchTask.target options = "root" /\ obj = Element root)
        \/ (BatchTask.target options = "selected"
            /\ obj = ElementList selected) ->
        (forall e,
            find depth root obj (BatchTask.xpath options)
            = Some (w, Raise e) ->
            run = Some (w, inl (BatchTask.Uncaught e)))
        /\ (find depth root obj (BatchTask.xpath options) = Some (w, Ok []) ->
            run = Some (w ++ ["No objects to apply on.";
                              ("Root: " ++ type_name root ++ "("
                               ++ id_text root ++ ")")%string;
                              "Selected: ElementList"],
                        inl (BatchTask.SystemExit 0)))).
Proof.
  intros Hdry run. split; [|split; [|split; [|split; [|split]]]].
  - intros H. apply read_effects_None in H. split; [exact H|].
    unfold run, BatchTask.custom_effect. rewrite Hdry, H. reflexivity.
  - apply read_effects_None.
  - intros T E1 E2. unfold BatchTask.read_effects. rewrite T, E1, E2.
    reflexivity.
  - intros [T|T] E; unfold BatchTask.read_effects; rewrite T, E;
      reflexivity.
  - intros effs Heff T1 T2. unfold run, BatchTask.custom_effect.
    rewrite Hdry, Heff, T1, T2. reflexivity.
  - intros effs obj w Heff Hobj. unfold run.
    rewrite (custom_effect_find id_text verb_list action_list depth root
               selected options obj effs Hdry Heff Hobj).
    split.
    + intros e ->. reflexivity.
    + intros ->. reflexivity.
Qed.

Lemma custom_effect_ends_early_witness :
  BatchTask.custom_effect
    (fun o => String (ascii_of_nat (48 + get_id o)) "")
    ["SelectionUnion"] ["select-by-id"] 1 Sample.doc []
    (BatchTask.mkOptions "root" "/img" "all" (Some "Simple")
                         None (Some "SelectionUnion") None None "false")
  = Some (["No effects inputted! Quitting..."], inl (BatchTask.SystemExit 0))
  /\ BatchTask.custom_effect
       (fun o => String (ascii_of_nat (48 + get_id o)) "")
       ["SelectionUnion"] ["select-by-id"] 1 Sample.doc []
       (BatchTask.mkOptions "root" "/img" "all" None
                            None None None None "false")
     = Some (["No objects to apply on."; "Root: SvgDocumentElement(0)";
              "Selected: ElementList"],
             inl (BatchTask.SystemExit 0)).
Proof.
  split.
  - destruct (custom_effect_ends_early
                (fun o => String (ascii_of_nat (48 + get_id o)) "")
                ["SelectionUnion"] ["select-by-id"] 1 Sample.doc []
                (BatchTask.mkOptions "root" "/img" "all" (Some "Simple")
                   None (Some "SelectionUnion") None None "false")
                eq_refl) as [H _].
    exact (proj2 (H (or_introl (conj eq_refl eq_refl)))).
  - assert (F : find 1 Sample.doc (Element Sample.doc) "/img"
                = Some ([], Ok [])) by (vm_compute; reflexivity).
    destruct (custom_effect_ends_early
                (fun o => String (ascii_of_nat (48 + get_id o)) "")
                ["SelectionUnion"] ["select-by-id"] 1 Sample.doc []
                (BatchTask.mkOptions "root" "/img" "all" None
                   None None None None "false")
                eq_refl) as [_ [_ [D [_ [_ H]]]]].
    exact (proj2 (H [] (Element Sample.doc) []
                    (D eq_refl eq_refl eq_refl)
                    (or_introl (conj eq_refl eq_refl))) F).
Defined.

(** ** Indices in the candidates of the type of the step *)

(** C3.  Let the candidates of a query be groups [gs] that follow one
    another in this order among the children of one node of a well-formed
    document, in any order and possibly mixed with nodes of other types.
    When the groups are [g0], [g1], [g2], the query [/g[0]] returns [g0],
    [/g[-1]] returns [g2] and [/g[0:2]] returns [g0] and [g1].  However
    many groups there are, the query [/g[k]] returns the group at
    position [k] among the groups, and [/g[-k]] the group at position
    [k] from their end: the index counts in the candidates that have the
    type of the step, not in all the candidates.  No message is
    recorded. *)
Theorem index_counts_in_type_filtered_matches
    (root parent : Node) (gs others cands : list Node)
    (obj : QueryObject) (depth : nat) :
  wf_document root ->
  In parent (iter root) ->
  Sublist gs (children parent) ->
  Forall (fun o => type_name o = "Group") gs ->
  Forall (fun o => type_name o <> "Group") others ->
  Permutation cands (gs ++ others) ->
  obj = PlainList cands \/ obj = ElementList cands ->
  (forall g0 g1 g2,
      gs = [g0; g1; g2] ->
      find (S depth) root obj "/g[0]" = Some ([], Ok [g0])
      /\ find (S depth) root obj "/g[-1]" = Some ([], Ok [g2])
      /\ find (S depth) root obj "/g[0:2]" = Some ([], Ok [g0; g1]))
  /\ (forall k,
        k < List.length gs ->
        String.length (decimal k) <= 4300 ->
        exists x,
          nth_error gs k = Some x
          /\ find (S depth) root obj ("/g[" ++ decimal k ++ "]")%string
             = Some ([], Ok [x]))
  /\ (forall k,
        1 <= k <= List.length gs ->
        String.length (decimal k) <= 4300 ->
        exists x,
          nth_error gs (List.length gs - k) = Some x
          /\ find (S depth) root obj ("/g[-" ++ decimal k ++ "]")%string
             = Some ([], Ok [x])).
Proof.
  intros WF Hp Hs G Ho Hperm Hobj.
  pose proof (groups_of_candidates root parent gs others cands obj
                WF Hp Hs G Ho Hperm Hobj) as E.
  assert (Ix : forall (neg : bool) k,
             String.length (decimal k) <= 4300 ->
             find (S depth) root obj
                  ("/g[" ++ ((if neg then "-" else "") ++ decimal k) ++ "]")
                  %string
             = (matches <-
                  select_matches
                    (IndexSelector (if neg then - Z.of_nat k else Z.of_nat k))
                    gs ;;
                ret matches)).
  { intros neg k Hk. rewrite find_candidates.
    rewrite (recurse_immediate_last root _
               (mkStepMatch "/" "g" ((if neg then "-" else "") ++ decimal k) "")
               "Group"
               (IndexSelector (if neg then - Z.of_nat k else Z.of_nat k))).
    - rewrite E. reflexivity.
    - assert (Ty : "g" = "*" \/ ("g" <> "" /\ string_all is_word "g" = true))
        by (right; split; [discriminate | reflexivity]).
      exact (findall_first_index_step false neg "g" (decimal k) "" Ty
               (decimal_nonempty k) (decimal_digits k) eq_refl).
    - reflexivity.
    - reflexivity.
    - reflexivity.
    - reflexivity.
    - apply convert_this_n_decimal. exact Hk.
    - exact WF. }
  split; [|split].
  - intros g0 g1 g2 ->. rewrite !find_candidates. split; [|split].
    + rewrite (recurse_immediate_last root "/g[0]"
                 (mkStepMatch "/" "g" "0" "") "Group" (IndexSelector 0))
        by (reflexivity || assumption).
      rewrite E. reflexivity.
    + rewrite (recurse_immediate_last root "/g[-1]"
                 (mkStepMatch "/" "g" "-1" "") "Group" (IndexSelector (-1)))
        by (reflexivity || assumption).
      rewrite E. reflexivity.
    + rewrite (recurse_immediate_last root "/g[0:2]"
                 (mkStepMatch "/" "g" "0:2" "") "Group"
                 (SliceSelector [Some 0%Z; Some 2%Z]))
        by (reflexivity || assumption).
      rewrite E. reflexivity.
  - intros k Hlt Hk.
    destruct (py_index_in_range gs (Z.of_nat k)) as [x [P N]]; [lia|].
    exists x. split.
    + assert (T : (Z.of_nat k <? 0)%Z = false) by (apply Z.ltb_ge; lia).
      rewrite T, Nat2Z.id in N. exact N.
    + transitivity (matches <- select_matches (IndexSelector (Z.of_nat k)) gs ;;
                    ret matches); [exact (Ix false k Hk)|].
      unfold select_matches. rewrite P. reflexivity.
  - intros k [H1 Hle] Hk.
    destruct (py_index_in_range gs (- Z.of_nat k)) as [x [P N]]; [lia|].
    exists x. split.
    + assert (T : (- Z.of_nat k <? 0)%Z = true) by (apply Z.ltb_lt; lia).
      rewrite T in N.
      replace (Z.to_nat (Z.of_nat (List.length gs) + - Z.of_nat k))
        with (List.length gs - k) in N by lia.
      exact N.
    + transitivity (matches <-
                      select_matches (IndexSelector (- Z.of_nat k)) gs ;;
                    ret matches); [exact (Ix true k Hk)|].
      unfold select_matches. rewrite P. reflexivity.
Qed.

Lemma index_counts_in_type_filtered_matches_witness :
  (find 1 Sample.doc (PlainList [Sample.c7; Sample.g9; Sample.g1; Sample.g8])
        "/g[0]" = Some ([], Ok [Sample.g1])
   /\ find 1 Sample.doc (PlainList [Sample.c7; Sample.g9; Sample.g1; Sample.g8])
           "/g[-1]" = Some ([], Ok [Sample.g9])
   /\ find 1 Sample.doc (PlainList [Sample.c7; Sample.g9; Sample.g1; Sample.g8])
           "/g[0:2]" = Some ([], Ok [Sample.g1; Sample.g8]))
  /\ exists x,
       nth_error [Sample.g1; Sample.g8; Sample.g9] (3 - 2) = Some x
       /\ find 1 Sample.doc
               (PlainList [Sample.c7; Sample.g9; Sample.g1; Sample.g8])
               "/g[-2]"
          = Some ([], Ok [x]).
Proof.
  assert (P : Permutation [Sample.c7; Sample.g9; Sample.g1; Sample.g8]
                ([Sample.g1; Sample.g8; Sample.g9] ++ [Sample.c7])).
  { simpl. apply Permutation_sym.
    apply (Permutation_trans
             (l' := [Sample.g1; Sample.g8; Sample.c7; Sample.g9])).
    - do 2 apply perm_skip. apply perm_swap.
    - apply (Permutation_trans
               (l' := [Sample.g1; Sample.c7; Sample.g8; Sample.g9])).
      + apply perm_skip. apply perm_swap.
      + apply (Permutation_trans
                 (l' := [Sample.c7; Sample.g1; Sample.g8; Sample.g9])).
        * apply perm_swap.
        * apply perm_skip.
          apply (Permutation_trans
                   (l' := [Sample.g1; Sample.g9; Sample.g8])).
          -- apply perm_skip. apply perm_swap.
          -- apply perm_swap. }
  assert (S3 : Sublist [Sample.g1; Sample.g8; Sample.g9]
                 (children Sample.doc)).
  { simpl. apply Sublist_skip. apply Sublist_take. apply Sublist_skip.
    apply Sublist_take. apply Sublist_take. apply Sublist_nil. }
  assert (G : Forall (fun o => type_name o = "Group")
                [Sample.g1; Sample.g8; Sample.g9])
    by (repeat constructor).
  assert (O : Forall (fun o => type_name o <> "Group") [Sample.c7])
    by (repeat constructor; discriminate).
  assert (L : String.length (decimal 2) <= 4300) by (vm_compute; lia).
  assert (R : 1 <= 2 <= List.length [Sample.g1; Sample.g8; Sample.g9])
    by (simpl; lia).
  destruct (index_counts_in_type_filtered_matches
              Sample.doc Sample.doc [Sample.g1; Sample.g8; Sample.g9]
              [Sample.c7] [Sample.c7; Sample.g9; Sample.g1; Sample.g8]
              (PlainList [Sample.c7; Sample.g9; Sample.g1; Sample.g8]) 0
              wf_sample_doc (or_introl eq_refl) S3 G O P (or_introl eq_refl))
    as [H1 [_ H3]].
  split.
  - exact (H1 Sample.g1 Sample.g8 Sample.g9 eq_refl).
  - exact (H3 2 R L).
Defined.

(** ** The order of the nodes that a query returns *)




(** ** The texts between the brackets and their conversion *)


















(** ** The exceptions of the first step *)












(** ** An index out of range, and the branches beside it *)






(** The children of a node of a well-formed document are in document
    order. *)
Lemma sorted_children root o :
  wf_document root -> In o (iter root) ->
  filter (contains (children o)) (iter root) = children o.
Proof.
  intros WF Ho. apply filter_contains_Sublist;
    [apply Sublist_children_iter; assumption | exact WF].
Qed.





(** ** Bookkeeping nodes below the top level *)

Lemma steps_of_nonempty (n : nat) (xpath : string) :
  steps_of n xpath <> Some [].
Proof.
  destruct n as [|n]; simpl; [discriminate|].
  destruct (findall_first xpath) as [m|]; [|discriminate].
  destruct (String.eqb (next_xpath m) ""); [discriminate|].
  destruct (steps_of n (next_xpath m)); discriminate.
Qed.

(** An expression of immediate steps without selectors. *)
Lemma recurse_path root :
  wf_document root ->
  forall n xpath steps,
    steps_of n xpath = Some steps ->
    Forall (fun s => immediate s = true /\ this_n s = ""
                     /\ resolves (this_type s) = true) steps ->
    forall depth objects,
      List.length steps <= depth ->
      recurse depth root objects xpath
      = Some ([], Ok (path_nodes (map this_type steps)
                                 (filter (contains objects) (iter root)))).
Proof.
  intros WF. induction n as [|n IH]; intros xpath steps Hs Hall depth objects Hd;
    [discriminate|].
  simpl in Hs. destruct (findall_first xpath) as [m|] eqn:F; [|discriminate].
  destruct (String.eqb (next_xpath m) "") eqn:X.
  - injection Hs as <-. inversion Hall as [|? ? [I [N R]] _]. subst.
    destruct depth as [|depth]; [simpl in Hd; lia|].
    apply String.eqb_eq in X.
    rewrite (recurse_last_step root xpath m F I X N R WF). reflexivity.
  - destruct (steps_of n (next_xpath m)) as [steps'|] eqn:S'; simpl in Hs;
      [|discriminate].
    injection Hs as <-. inversion Hall as [|? ? [I [N R]] Hall']. subst.
    destruct depth as [|depth]; [simpl in Hd; lia|].
    assert (C : convert_this_n (this_n m) = Ok NoSelector)
      by (rewrite N; reflexivity).
    rewrite (recurse_step _ _ _ _ _ _ _ _ _
               (z_sort_filter _ _ WF) F C (classify_resolves _ _ _ R)).
    rewrite I, X. unfold select_matches. rewrite bind_ret.
    rewrite (recurse_into_flat_map _
               (fun o => path_nodes (map this_type steps') (children o))).
    + destruct steps' as [|s2 st];
        [exfalso; exact (steps_of_nonempty _ _ S')|].
      reflexivity.
    + intros o Hin _. apply filter_In in Hin. destruct Hin as [Hin _].
      apply filter_In in Hin. destruct Hin as [Hroot _].
      rewrite (IH _ _ S' Hall') by (simpl in Hd; lia).
      rewrite (sorted_children root o WF Hroot). reflexivity.
Qed.

(** No code of [tag_dict] names the type of a bookkeeping node. *)
Lemma typed_step_not_meta (ty : string) (o : Node) :
  ty <> "*" -> satisfies ty o = true -> is_meta o = false.
Proof.
  intros Hs. apply String.eqb_neq in Hs. unfold satisfies, tag_dict.
  rewrite Hs. simpl.
  destruct (String.eqb ty "l");
    [|destruct (String.eqb ty "g");
      [|destruct (String.eqb ty "p");
        [|destruct (String.eqb ty "img"); [|discriminate]]]];
    intros H; apply String.eqb_eq in H; unfold is_meta; rewrite H;
    reflexivity.
Qed.

(** C7 (amended).  In a well-formed document the bookkeeping filter is
    applied once, to the top level candidates, when the query object is
    the root of the document or an [ElementList], and not at all when it
    is a plain list or another element.  It is not applied during the
    descent: evaluating a step leads to the query on the plain list of
    all the children of each container it descends into.  So an
    expression of immediate steps without selectors returns the
    [path_nodes] of its types on the candidates, with every child of a
    matched container a candidate of the next step; a child of a
    container among the candidates is returned by [/*/*] and, from the
    root, by the wildcard descendant query, whether or not it is a
    bookkeeping node.  A step with a code of [tag_dict] never matches a
    bookkeeping node. *)
Theorem meta_filter_top_level_only (root : Node) (depth : nat) :
  wf_document root ->
  (type_name root = "SvgDocumentElement" ->
   find (S depth) root (Element root) "/*"
   = Some ([], Ok (filter (fun c => negb (is_meta c)) (children root))))
  /\ (forall values,
        find (S depth) root (ElementList values) "/*"
        = Some ([], Ok (filter
                          (contains (filter (fun c => negb (is_meta c)) values))
                          (iter root))))
  /\ (forall items,
        find (S depth) root (PlainList items) "/*"
        = Some ([], Ok (filter (contains items) (iter root))))
  /\ (forall e,
        String.eqb (type_name e) "SvgDocumentElement" = false ->
        In e (iter root) ->
        find (S depth) root (Element e) "/*" = Some ([], Ok (children e)))
  /\ (type_name root = "SvgDocumentElement" ->
      height root <= depth ->
      forall g d,
        In g (children root) -> is_iterable g = true -> In d (children g) ->
        exists out,
          find depth root (Element root) "//*" = Some ([], Ok out)
          /\ In d out)
  /\ (forall obj xpath m sel,
        string_all is_ascii xpath = true ->
        findall_first xpath = Some m ->
        convert_this_n (this_n m) = Ok sel ->
        resolves (this_type m) = true ->
        let objs := filter (contains (candidates obj)) (iter root) in
        find (S depth) root obj xpath
        = (matches <-
             select_matches sel (filter (satisfies (this_type m)) objs) ;;
           outs <- recurse_into
                     (fun kids =>
                        find depth root (PlainList kids)
                             (if immediate m then next_xpath m else xpath))
                     (if immediate m
                      then if String.eqb (next_xpath m) "" then [] else matches
                      else objs) ;;
           ret ((if immediate m
                 then if String.eqb (next_xpath m) "" then matches else []
                 else matches) ++ outs)))
  /\ (forall obj xpath steps,
        string_all is_ascii xpath = true ->
        step_list xpath = Some steps ->
        Forall (fun s => immediate s = true /\ this_n s = ""
                         /\ resolves (this_type s) = true) steps ->
        List.length steps <= S depth ->
        find (S depth) root obj xpath
        = Some ([], Ok (path_nodes
                          (map this_type steps)
                          (filter (contains (candidates obj)) (iter root)))))
  /\ (forall obj g d,
        In g (candidates obj) -> In g (iter root) ->
        is_iterable g = true -> In d (children g) ->
        exists out,
          find (S (S depth)) root obj "/*/*" = Some ([], Ok out)
          /\ In d out)
  /\ (forall ty o,
        ty <> "*" -> satisfies ty o = true -> is_meta o = false).
Proof.
  intros WF.
  assert (W : forall objects,
             recurse (S depth) root objects "/*"
             = Some ([], Ok (filter (contains objects) (iter root)))).
  { apply (recurse_wildcard_immediate root "/*" (mkStepMatch "/" "*" "" ""));
      try reflexivity. assumption. }
  split; [|split; [|split; [|split; [|split; [|split; [|split; [|split]]]]]]].
  - intros K. rewrite find_candidates. cbn [candidates].
    rewrite K, String.eqb_refl, W. do 3 f_equal.
    apply filter_contains_Sublist; [apply Sublist_top_iter | exact WF].
  - intros values. rewrite find_candidates. apply W.
  - intros items. rewrite find_candidates. apply W.
  - intros e K He. rewrite find_candidates. cbn [candidates].
    rewrite K, W. do 3 f_equal.
    apply filter_contains_Sublist;
      [apply Sublist_children_iter; assumption | exact WF].
  - intros K Hh g d Hg Ig Hd. eexists. split.
    + apply find_root_wildcard_descendant; assumption.
    + unfold level_first. apply in_or_app. right.
      apply in_flat_map. exists g. split.
      * apply filter_In. split; [assumption|].
        rewrite (is_iterable_not_meta g Ig). reflexivity.
      * rewrite below_unfold, Ig. unfold level_first.
        apply in_or_app. left. assumption.
  - intros obj xpath m sel _ F C R objs. rewrite find_candidates.
    exact (recurse_step _ _ _ _ _ _ _ _ _
             (z_sort_filter _ _ WF) F C (classify_resolves _ _ _ R)).
  - intros obj xpath steps _ Hs Hall Hd. rewrite find_candidates.
    apply (recurse_path root WF _ xpath steps Hs Hall). exact Hd.
  - intros obj g d Hg Hroot Ig Hd. eexists. split.
    + rewrite find_candidates.
      apply (recurse_path root WF (String.length "/*/*") "/*/*"
               [mkStepMatch "/" "*" "" "/*"; mkStepMatch "/" "*" "" ""]).
      * reflexivity.
      * repeat constructor.
      * simpl. lia.
    + cbn [map this_type path_nodes]. apply in_flat_map. exists g. split.
      * apply filter_In. split; [|reflexivity].
        apply filter_In. split; [exact Hroot|].
        apply contains_In. exact Hg.
      * rewrite Ig. apply filter_In. split; [exact Hd | reflexivity].
  - apply typed_step_not_meta.
Qed.

Lemma meta_filter_top_level_only_witness :
  find 1 Sample.doc (Element Sample.doc) "/*"
  = Some ([], Ok [Sample.g1; Sample.c7; Sample.g8; Sample.g9])
  /\ find 2 Sample.doc (Element Sample.doc) "/g/*"
     = Some ([], Ok [Sample.path 3; Sample.defs 4;
                     Sample.group 5 [Sample.path 6]; Sample.path 10])
  /\ exists out,
       find 4 Sample.doc (Element Sample.doc) "//*" = Some ([], Ok out)
       /\ In (Sample.defs 4) out.
Proof.
  assert (St : step_list "/g/*"
               = Some [mkStepMatch "/" "g" "" "/*"; mkStepMatch "/" "*" "" ""])
    by (vm_compute; reflexivity).
  assert (A : Forall (fun s => immediate s = true /\ this_n s = ""
                               /\ resolves (this_type s) = true)
                [mkStepMatch "/" "g" "" "/*"; mkStepMatch "/" "*" "" ""])
    by (repeat constructor).
  assert (L : List.length
                [mkStepMatch "/" "g" "" "/*"; mkStepMatch "/" "*" "" ""] <= 2)
    by (simpl; lia).
  assert (Hh : height Sample.doc <= 4) by (vm_compute; lia).
  split; [|split].
  - exact (proj1 (meta_filter_top_level_only Sample.doc 0 wf_sample_doc)
                 eq_refl).
  - destruct (meta_filter_top_level_only Sample.doc 1 wf_sample_doc)
      as [_ [_ [_ [_ [_ [_ [H _]]]]]]].
    exact (H (Element Sample.doc) "/g/*" _ eq_refl St A L).
  - destruct (meta_filter_top_level_only Sample.doc 4 wf_sample_doc)
      as [_ [_ [_ [_ [H _]]]]].
    exact (H eq_refl Hh Sample.g1 (Sample.defs 4)
             (or_intror (or_introl eq_refl)) eq_refl
             (or_intror (or_introl eq_refl))).
Defined.
